(** * Phoenix ZPA: a memory-mapped store of fixed 64-byte records

    A shallow embedding of [scripts/phoenix_zpa_engine.py]: the ctypes
    structure [FC496Struct] laid over an [mmap] region, the admission
    filter [_calculate_h_score], the constructor and the two operations
    [write_atom] and [read_atom] of the class [PhoenixZPA], and the write
    loop of [run_benchmark].

    Modelling choices, all read off the source:
    - the mapped region is a [list byte] of fixed length, updated in place;
    - Python [float] is IEEE 754 binary64, here [spec_float] at precision
      53 and maximal exponent 1024, with the operations of [SpecFloat];
    - ctypes integer fields wrap modulo their width and are laid out in
      the byte order of the platform, taken to be little-endian;
    - exceptions are values of [exn]; an operation returns an [outcome]
      together with the region as it stands when the operation ends;
    - [time.time()] is an input: [write_atom] receives the value of
      [int(time.time() * 1000)] as its argument [now]. *)

From Stdlib Require Import Strings.Byte Strings.String.
From Stdlib Require Import ZArith List Bool Lia Permutation.
From Stdlib Require Import Floats.SpecFloat.
Import ListNotations.

Local Open Scope Z_scope.

(** ** Exceptions *)

Inductive exn : Set := IndexError | ValueError | OSError | OverflowError.

Inductive outcome (A : Type) : Type :=
| Return (a : A)
| Raise (e : exn).
Arguments Return {A} a.
Arguments Raise {A} e.

(** ** Python floats *)

Module PyFloat.

Definition prec : Z := 53.
Definition emax : Z := 1024.

Definition float := spec_float.

Definition mul : float -> float -> float := SFmul prec emax.
Definition div : float -> float -> float := SFdiv prec emax.
Definition ltb : float -> float -> bool := SFltb.
Definition leb : float -> float -> bool := SFleb.

(** [a / b] on two positive Python integers: the quotient rounded once
    to the nearest binary64, ties to even. *)
Definition int_true_div (a b : positive) : float :=
  div (S754_finite false a 0) (S754_finite false b 0).

(** [float(z)] for an integer [z]. *)
Definition of_int (z : Z) : float := binary_normalize prec emax z 0 false.

(** A decimal literal [n / 10^k] is read as the nearest binary64. *)
Definition literal (n : positive) (k : nat) : float :=
  int_true_div n (Pos.pow 10 (Pos.of_nat k)).

(** [int(x)]: truncation toward zero; Python raises on an infinity
    ([OverflowError]) and on a NaN ([ValueError]). *)
Definition to_int (x : float) : outcome Z :=
  match x with
  | S754_zero _ => Return 0
  | S754_finite s m e =>
      let a := match e with
               | Zneg p => Z.shiftr (Zpos m) (Zpos p)
               | _ => Z.shiftl (Zpos m) e
               end in
      Return (if s then - a else a)
  | S754_infinity _ => Raise OverflowError
  | S754_nan => Raise ValueError
  end.

(** The builtin [min(a, b)] on two floats: [b] when [b < a], else [a]. *)
Definition min (a b : float) : float := if ltb b a then b else a.

End PyFloat.

(** ** Module constants *)

Definition PHI : PyFloat.float := PyFloat.literal 161803398875 11.
Definition H_THRESHOLD : PyFloat.float := PyFloat.div (PyFloat.literal 10 1) PHI.
Definition ATOM_SIZE : Z := 64.
Definition MAGIC_SIG : Z := 0x1F0.

(** ** Bytes and byte sequences *)

Definition byte_to_Z (b : byte) : Z := Z.of_N (Byte.to_N b).

Definition byte_of_Z (z : Z) : byte :=
  match Byte.of_N (Z.to_N (z mod 256)) with
  | Some b => b
  | None => x00
  end.

(** Little-endian image of [z] on [n] bytes; the bits above [8 * n] are
    dropped, as a C unsigned integer of that width does. *)
Fixpoint le_encode (n : nat) (z : Z) : list byte :=
  match n with
  | O => []
  | S n' => byte_of_Z z :: le_encode n' (z / 256)
  end.

Fixpoint le_decode (bs : list byte) : Z :=
  match bs with
  | [] => 0
  | b :: bs' => byte_to_Z b + 256 * le_decode bs'
  end.

(** [bs.ljust(width, fill)] *)
Definition ljust (bs : list byte) (width : nat) (fill : byte) : list byte :=
  bs ++ repeat fill (width - length bs).

(** The bytes of a C string: everything before the first NUL. *)
Fixpoint c_string (bs : list byte) : list byte :=
  match bs with
  | [] => []
  | b :: bs' => if Byte.eqb b x00 then [] else b :: c_string bs'
  end.

(** [len(set(payload))] *)
Definition distinct (payload : list byte) : nat :=
  length (nodup Byte.byte_eq_dec payload).

(** ** The mapped region *)

(** The [mmap] object: a byte array of fixed length. *)
Definition region := list byte.

Definition load (m : region) (off : Z) (len : nat) : list byte :=
  firstn len (skipn (Z.to_nat off) m).

Definition store (m : region) (off : Z) (bs : list byte) : region :=
  firstn (Z.to_nat off) m ++ bs ++ skipn (Z.to_nat off + length bs) m.

(** Code that works on the region in place and may raise. *)
Definition M (A : Type) : Type := region -> outcome A * region.

Definition ret {A} (a : A) : M A := fun m => (Return a, m).
Definition raise {A} (e : exn) : M A := fun m => (Raise e, m).
Definition bind {A B} (c : M A) (k : A -> M B) : M B :=
  fun m => match c m with
           | (Return a, m') => k a m'
           | (Raise e, m') => (Raise e, m')
           end.
Definition lift {A} (o : outcome A) : M A := fun m => (o, m).

Notation "x <- c ;; k" := (bind c (fun x => k))
  (at level 61, c at next level, right associativity).
Notation "c ;;; k" := (bind c (fun _ => k))
  (at level 61, right associativity).

(** ** The record layout: [FC496Struct] *)

Inductive ctype : Set :=
| c_uint16
| c_uint64
| c_char_array (n : nat).

Definition sizeof (t : ctype) : nat :=
  match t with
  | c_uint16 => 2
  | c_uint64 => 8
  | c_char_array n => n
  end.

Inductive field : Set :=
| magic | pi_index | geo_hash | schema | h_score | flags | payload | strands.

Definition field_eqb (f g : field) : bool :=
  match f, g with
  | magic, magic | pi_index, pi_index | geo_hash, geo_hash
  | schema, schema | h_score, h_score | flags, flags
  | payload, payload | strands, strands => true
  | _, _ => false
  end.

Definition _fields_ : list (field * ctype) :=
  [ (magic, c_uint16);
    (pi_index, c_uint64);
    (geo_hash, c_uint64);
    (schema, c_uint16);
    (h_score, c_uint16);
    (flags, c_uint16);
    (payload, c_char_array 32);
    (strands, c_uint64) ].

(** With [_pack_ = 1] a field starts where the previous one ends. *)
Fixpoint offset_in (fs : list (field * ctype)) (f : field) : nat :=
  match fs with
  | [] => 0
  | (g, t) :: fs' => if field_eqb f g then 0 else sizeof t + offset_in fs' f
  end.

Fixpoint type_in (fs : list (field * ctype)) (f : field) : ctype :=
  match fs with
  | [] => c_char_array 0
  | (g, t) :: fs' => if field_eqb f g then t else type_in fs' f
  end.

Definition field_offset (f : field) : Z := Z.of_nat (offset_in _fields_ f).
Definition field_size (f : field) : nat := sizeof (type_in _fields_ f).

Definition struct_size : Z :=
  Z.of_nat (fold_right (fun ft n => (sizeof (snd ft) + n)%nat) O _fields_).

(** A structure instance laid over the region: its base address. *)
Definition FC496Struct := Z.

(** The largest C [ssize_t], [sys.maxsize]: [2 ^ 63 - 1]. *)
Definition PY_SSIZE_T_MAX : Z := 9223372036854775807.

(** A Python integer that converts to a C [ssize_t]. *)
Definition fits_ssize_t (z : Z) : bool :=
  (- PY_SSIZE_T_MAX - 1 <=? z) && (z <=? PY_SSIZE_T_MAX).

(** [FC496Struct.from_buffer(self.map, offset)]: ctypes converts the offset
    to a C [ssize_t], with [OverflowError] when it does not fit, then
    refuses a negative offset and a buffer that ends before the structure
    does, both with [ValueError]. *)
Definition from_buffer (offset : Z) : M FC496Struct :=
  fun m =>
    if negb (fits_ssize_t offset) then (Raise OverflowError, m)
    else if offset <? 0 then (Raise ValueError, m)
    else if Z.of_nat (length m) <? offset + struct_size then (Raise ValueError, m)
    else (Return offset, m).

(** Assignment to an integer field: the value is masked to the width of
    the field, no overflow check. *)
Definition set_int (atom : FC496Struct) (f : field) (v : Z) : M unit :=
  fun m => (Return tt, store m (atom + field_offset f) (le_encode (field_size f) v)).

(** What the setter of a [c_char] array of [n] bytes copies from the value
    [v]: the bytes of [v] before its first NUL, and one NUL after them when
    there is room. The bytes of [v] after a NUL are not copied. *)
Definition copied_chars (v : list byte) (n : nat) : list byte :=
  let cs := c_string v in
  if (length cs <? n)%nat then cs ++ [x00] else cs.

(** Assignment to a [c_char] array field. The setter takes the value as a
    C string: it refuses more than [n] bytes before the first NUL, and
    copies [copied_chars] to the start of the field; the rest of the field
    keeps what it held. *)
Definition set_chars (atom : FC496Struct) (f : field) (v : list byte) : M unit :=
  fun m =>
    if (field_size f <? length (c_string v))%nat then (Raise ValueError, m)
    else (Return tt,
          store m (atom + field_offset f) (copied_chars v (field_size f))).

(** Reading an integer field. *)
Definition get_int (m : region) (atom : FC496Struct) (f : field) : Z :=
  le_decode (load m (atom + field_offset f) (field_size f)).

(** Reading a [c_char] array field gives the bytes before the first NUL. *)
Definition get_chars (m : region) (atom : FC496Struct) (f : field) : list byte :=
  c_string (load m (atom + field_offset f) (field_size f)).

(** The bytes a field occupies, as they are in the region. *)
Definition raw_field (m : region) (atom : FC496Struct) (f : field) : list byte :=
  load m (atom + field_offset f) (field_size f).

(** ** The engine: class [PhoenixZPA] *)

Module PhoenixZPA.

Record t : Type := mk {
  size_bytes : Z;
  atom_capacity : Z;
  map : region
}.

(** Runs code on the mapped region of an engine. *)
Definition on_map {A} (self : t) (c : M A) : outcome A * t :=
  let (r, m) := c (map self) in
  (r, mk (size_bytes self) (atom_capacity self) m).

(** [_init_storage]: [existing] is the content of the file when there is
    one. A new file is sized by [truncate], which the system refuses for
    a negative size; a size that no C [ssize_t] holds is refused with
    [OverflowError], by [truncate] or by [mmap]; [mmap] refuses a negative
    length, an empty file and a length beyond the end of the file, and
    takes length 0 to mean the whole file, which it refuses when that is
    too large. *)
Definition _init_storage (existing : option (list byte)) (size_bytes : Z)
  : outcome region :=
  let is_new := match existing with None => true | Some _ => false end in
  if is_new && (size_bytes <? 0) then Raise OSError
  else if PY_SSIZE_T_MAX <? size_bytes then Raise OverflowError
  else
    let file := match existing with
                | None => repeat x00 (Z.to_nat size_bytes)
                | Some bs => bs
                end in
    if size_bytes <? 0 then Raise OverflowError
    else if size_bytes =? 0 then
      match file with
      | [] => Raise ValueError
      | _ => if PY_SSIZE_T_MAX <? Z.of_nat (length file) then Raise ValueError
             else Return file
      end
    else if Z.of_nat (length file) <? size_bytes then Raise ValueError
    else Return (firstn (Z.to_nat size_bytes) file).

Definition __init__ (existing : option (list byte)) (size_mb : Z) : outcome t :=
  let size_bytes := size_mb * 1024 * 1024 in
  let atom_capacity := size_bytes / ATOM_SIZE in
  match _init_storage existing size_bytes with
  | Return m => Return (mk size_bytes atom_capacity m)
  | Raise e => Raise e
  end.

Definition _calculate_h_score (payload : list byte) : PyFloat.float :=
  let entropy :=
    match payload with
    | [] => PyFloat.of_int 0
    | _ :: _ =>
        PyFloat.int_true_div (Pos.of_nat (distinct payload))
                             (Pos.of_nat (length payload))
    end in
  PyFloat.min (PyFloat.literal 99 2) (PyFloat.mul entropy PHI).

(** The body of [write_atom] once the payload is admitted: the overlay
    and the eight assignments, in the order of the source. *)
Definition fill_atom (now index : Z) (data_bytes : list byte)
           (schema_type : Z) (h_score_val : PyFloat.float) : M bool :=
  let offset := index * ATOM_SIZE in
  atom <- from_buffer offset ;;
  set_int atom magic MAGIC_SIG ;;;
  set_int atom pi_index now ;;;
  set_int atom geo_hash 0xCAFEBABE ;;;
  set_int atom schema schema_type ;;;
  h <- lift (PyFloat.to_int (PyFloat.mul h_score_val (PyFloat.of_int 10000))) ;;
  set_int atom h_score h ;;;
  set_int atom flags 42 ;;;
  let clean_payload := ljust (firstn 32 data_bytes) 32 x00 in
  set_chars atom payload clean_payload ;;;
  set_int atom strands 0xDEADBEEF ;;;
  ret true.

Definition write_atom (self : t) (now index : Z) (data_bytes : list byte)
           (schema_type : Z) : outcome bool * t :=
  if index >=? atom_capacity self then (Raise IndexError, self)
  else
    let h_score_val := _calculate_h_score data_bytes in
    if PyFloat.ltb h_score_val H_THRESHOLD then (Return false, self)
    else on_map self (fill_atom now index data_bytes schema_type h_score_val).

(** [read_atom] gives [None] for a slot without the signature, and the
    overlaid structure otherwise. *)
Definition read_atom (self : t) (index : Z) : outcome (option FC496Struct) :=
  let offset := index * ATOM_SIZE in
  match from_buffer offset (map self) with
  | (Raise e, _) => Raise e
  | (Return atom, m) =>
      if negb (get_int m atom magic =? MAGIC_SIG) then Return None
      else Return (Some atom)
  end.

End PhoenixZPA.

(** ** Notions used in the statements *)

(** A float that is neither an infinity nor a NaN. *)
Definition is_finite (x : spec_float) : bool :=
  match x with
  | S754_zero _ | S754_finite _ _ _ => true
  | _ => false
  end.

(** The payload passes the admission filter: its score is at least the
    threshold. *)
Definition admissible (data_bytes : list byte) : Prop :=
  PyFloat.leb H_THRESHOLD (PhoenixZPA._calculate_h_score data_bytes) = true.

(** The 32 bytes of the field [payload] after [write_atom] has assigned
    [data_bytes] to it, when they were [old] before: the copied bytes, then
    what was there. *)
Definition payload_after (old data_bytes : list byte) : list byte :=
  let p := copied_chars (ljust (firstn 32 data_bytes) 32 x00) 32 in
  p ++ skipn (length p) old.

(** The 64 bytes that a successful [write_atom] leaves in its slot, whose
    field [payload] held [old_payload] before. *)
Definition atom_image (old_payload : list byte) (now : Z) (data_bytes : list byte)
           (schema_type h : Z) : list byte :=
  le_encode 2 MAGIC_SIG ++ le_encode 8 now ++ le_encode 8 0xCAFEBABE
  ++ le_encode 2 schema_type ++ le_encode 2 h ++ le_encode 2 42
  ++ payload_after old_payload data_bytes ++ le_encode 8 0xDEADBEEF.

(** The integer stored in the field [h_score] for an admitted payload:
    [int(h_score_val * 10000)]. *)
Definition h_field (data_bytes : list byte) : Z :=
  match PyFloat.to_int (PyFloat.mul (PhoenixZPA._calculate_h_score data_bytes)
                                    (PyFloat.of_int 10000)) with
  | Return h => h
  | Raise _ => 0
  end.

(** The engine with another content of its region. *)
Definition with_map (self : PhoenixZPA.t) (m : region) : PhoenixZPA.t :=
  PhoenixZPA.mk (PhoenixZPA.size_bytes self) (PhoenixZPA.atom_capacity self) m.

(** The invariant of an engine: the region holds every slot below the
    capacity, and its length is a C [ssize_t], as the length of every
    mapping is. *)
Definition wf (self : PhoenixZPA.t) : Prop :=
  PhoenixZPA.atom_capacity self * ATOM_SIZE
  <= Z.of_nat (length (PhoenixZPA.map self))
  /\ Z.of_nat (length (PhoenixZPA.map self)) <= PY_SSIZE_T_MAX.

(** The region of [self] after a successful [write_atom] at index [i]. *)
Definition region_after (self : PhoenixZPA.t) (now i : Z)
           (data_bytes : list byte) (schema_type : Z) : region :=
  store (PhoenixZPA.map self) (i * ATOM_SIZE)
        (atom_image (raw_field (PhoenixZPA.map self) (i * ATOM_SIZE) payload)
                    now data_bytes schema_type (h_field data_bytes)).

(** One call of [write_atom]: clock, index, payload, schema. *)
Record call : Type := mk_call {
  call_now : Z;
  call_index : Z;
  call_data : list byte;
  call_schema : Z
}.

Definition do_call (self : PhoenixZPA.t) (c : call) : outcome bool * PhoenixZPA.t :=
  PhoenixZPA.write_atom self (call_now c) (call_index c) (call_data c)
                        (call_schema c).

(** The engine after a sequence of calls, whatever their outcomes. *)
Fixpoint replay (self : PhoenixZPA.t) (cs : list call) : PhoenixZPA.t :=
  match cs with
  | [] => self
  | c :: cs' => replay (snd (do_call self c)) cs'
  end.

(** Some call of the sequence wrote slot [i] with success. *)
Fixpoint written (self : PhoenixZPA.t) (i : Z) (cs : list call) : bool :=
  match cs with
  | [] => false
  | c :: cs' =>
      match do_call self c with
      | (Return true, self') => (call_index c =? i) || written self' i cs'
      | (_, self') => written self' i cs'
      end
  end.

(** The engine that the constructor gives for a new file of one megabyte. *)
Definition engine_1mb : PhoenixZPA.t :=
  PhoenixZPA.mk (1 * 1024 * 1024) (1 * 1024 * 1024 / ATOM_SIZE)
                (repeat x00 (Z.to_nat (1 * 1024 * 1024))).

(** The payload of the benchmark in the source. *)
Definition dummy_data : list byte :=
  list_byte_of_string "Lichen Universe Semantic Payload V3".

(** The size of a packed structure with the fields [fs]. *)
Definition total_size (fs : list (field * ctype)) : nat :=
  fold_right (fun ft n => (sizeof (snd ft) + n)%nat) O fs.

(** The last call of the sequence that wrote slot [i] with success, [acc]
    when there is none. *)
Fixpoint last_write (self : PhoenixZPA.t) (i : Z) (cs : list call)
         (acc : option call) : option call :=
  match cs with
  | [] => acc
  | c :: cs' =>
      match do_call self c with
      | (Return true, self') =>
          last_write self' i cs' (if call_index c =? i then Some c else acc)
      | (_, self') => last_write self' i cs' acc
      end
  end.

(** The payload field of slot [i] after the calls of the sequence, when it
    holds [p] before them: each call that writes the slot with success
    copies its payload over the beginning of the field and leaves the
    rest. *)
Fixpoint payload_trace (self : PhoenixZPA.t) (i : Z) (cs : list call)
         (p : list byte) : list byte :=
  match cs with
  | [] => p
  | c :: cs' =>
      match do_call self c with
      | (Return true, self') =>
          payload_trace self' i cs'
                        (if call_index c =? i then payload_after p (call_data c)
                         else p)
      | (_, self') => payload_trace self' i cs' p
      end
  end.

(** Slot [i] of the region [m] reads as the record that the call [c]
    wrote: every integer field has the value that [c] set, and the
    [payload] attribute is the payload of [c] as a C string. *)
Definition holds_record (m : region) (i : Z) (c : call) : Prop :=
  get_int m (i * ATOM_SIZE) magic = MAGIC_SIG
  /\ get_int m (i * ATOM_SIZE) pi_index = call_now c mod 2 ^ 64
  /\ get_int m (i * ATOM_SIZE) geo_hash = 0xCAFEBABE
  /\ get_int m (i * ATOM_SIZE) schema = call_schema c mod 2 ^ 16
  /\ get_int m (i * ATOM_SIZE) h_score = h_field (call_data c)
  /\ get_int m (i * ATOM_SIZE) flags = 42
  /\ get_int m (i * ATOM_SIZE) strands = 0xDEADBEEF
  /\ get_chars m (i * ATOM_SIZE) payload = c_string (firstn 32 (call_data c)).

(** The write loop of [run_benchmark]:
    [for i in range(n_ops): zpa.write_atom(i, dummy_data)], over the list
    of the indices; [clock i] is the time of iteration [i], the schema is
    the default [0x01], and an exception ends the loop. *)
Fixpoint write_loop (clock : nat -> Z) (zpa : PhoenixZPA.t) (indices : list nat)
  : outcome unit * PhoenixZPA.t :=
  match indices with
  | [] => (Return tt, zpa)
  | i :: rest =>
      match PhoenixZPA.write_atom zpa (clock i) (Z.of_nat i) dummy_data 1 with
      | (Return _, zpa') => write_loop clock zpa' rest
      | (Raise e, zpa') => (Raise e, zpa')
      end
  end.

(** * Properties *)

(** ** Bytes and integers *)

Section Bytes.

Lemma byte_to_Z_range (b : byte) : 0 <= byte_to_Z b < 256.
Proof.
  unfold byte_to_Z. pose proof (Byte.to_N_bounded b) as H.
  change 256 with (Z.of_N 256). lia.
Qed.

Lemma byte_to_Z_of_Z (z : Z) : byte_to_Z (byte_of_Z z) = z mod 256.
Proof.
  unfold byte_of_Z, byte_to_Z.
  assert (Hr : 0 <= z mod 256 < 256) by (apply Z.mod_pos_bound; lia).
  destruct (Byte.of_N (Z.to_N (z mod 256))) as [b|] eqn:E.
  - apply Byte.to_of_N in E. rewrite E. lia.
  - apply Byte.of_N_None_iff in E. lia.
Qed.

Lemma byte_to_Z_inj (a b : byte) : byte_to_Z a = byte_to_Z b -> a = b.
Proof.
  unfold byte_to_Z. intros H. apply N2Z.inj in H.
  assert (E : Byte.of_N (Byte.to_N a) = Byte.of_N (Byte.to_N b)) by (now rewrite H).
  rewrite !Byte.of_to_N in E. congruence.
Qed.

Lemma le_encode_length (n : nat) (z : Z) : length (le_encode n z) = n.
Proof. revert z. induction n as [|n IH]; intros z; simpl; [reflexivity | now rewrite IH]. Qed.

Lemma le_decode_encode (n : nat) (z : Z) :
  le_decode (le_encode n z) = z mod 2 ^ (8 * Z.of_nat n).
Proof.
  revert z. induction n as [|n IH]; intros z.
  - simpl. now rewrite Z.mod_1_r.
  - cbn [le_encode le_decode]. rewrite IH, byte_to_Z_of_Z.
    replace (8 * Z.of_nat (S n)) with (8 + 8 * Z.of_nat n) by lia.
    rewrite Z.pow_add_r by lia. change (2 ^ 8) with 256.
    rewrite Z.rem_mul_r by lia. reflexivity.
Qed.

Lemma ljust_length (bs : list byte) (w : nat) (fill : byte) :
  (length bs <= w)%nat -> length (ljust bs w fill) = w.
Proof. intros H. unfold ljust. rewrite length_app, repeat_length. lia. Qed.

Lemma clean_payload_length (data : list byte) :
  length (ljust (firstn 32 data) 32 x00) = 32%nat.
Proof. apply ljust_length. apply firstn_le_length. Qed.

Lemma c_string_app_nul (a b : list byte) :
  c_string (a ++ x00 :: b) = c_string a.
Proof.
  induction a as [|x a IH]; simpl; [reflexivity|].
  destruct (Byte.eqb x x00); [reflexivity | now rewrite IH].
Qed.

Lemma c_string_repeat_nul (a : list byte) (n : nat) :
  c_string (a ++ repeat x00 n) = c_string a.
Proof.
  destruct n as [|n]; simpl; [now rewrite app_nil_r | apply c_string_app_nul].
Qed.

Lemma c_string_ljust (bs : list byte) (w : nat) :
  c_string (ljust bs w x00) = c_string bs.
Proof. apply c_string_repeat_nul. Qed.

Lemma c_string_no_nul (a : list byte) :
  ~ In x00 a -> c_string a = a.
Proof.
  induction a as [|x a IH]; simpl; intros H; [reflexivity|].
  destruct (Byte.eqb x x00) eqn:E.
  - apply Byte.byte_dec_bl in E. exfalso. apply H. now left.
  - f_equal. apply IH. intros Hin. apply H. now right.
Qed.

Lemma c_string_prefix (a : list byte) :
  exists b, a = c_string a ++ b /\ ~ In x00 (c_string a)
            /\ (b = [] \/ exists b', b = x00 :: b').
Proof.
  induction a as [|x a (b & E & Hn & Hb)]; simpl.
  - exists []. repeat split; auto.
  - destruct (Byte.eqb x x00) eqn:Ex.
    + apply Byte.byte_dec_bl in Ex. subst x.
      exists (x00 :: a). repeat split; eauto. 
    + exists b. simpl. split; [now rewrite <- E|]. split; [|exact Hb].
      intros [H|H]; [|now apply Hn]. subst x. discriminate.
Qed.

End Bytes.

(** ** The region: loads and stores *)

Section Region.

Implicit Types (m : region) (bs : list byte) (off : Z).

Lemma store_length m off bs :
  0 <= off -> off + Z.of_nat (length bs) <= Z.of_nat (length m) ->
  length (store m off bs) = length m.
Proof.
  intros H0 H1. unfold store.
  rewrite !length_app, length_firstn, length_skipn. lia.
Qed.

(** Two stores side by side are one store of the two images. *)
Lemma store_store_adjacent m off off' a b :
  0 <= off -> off <= Z.of_nat (length m) ->
  off' = off + Z.of_nat (length a) ->
  store (store m off a) off' b = store m off (a ++ b).
Proof.
  intros H0 H1 ->. unfold store.
  replace (Z.to_nat (off + Z.of_nat (length a)))
    with (Z.to_nat off + length a)%nat by lia.
  set (n := Z.to_nat off).
  assert (Hn : length (firstn n m) = n) by (rewrite length_firstn; lia).
  rewrite (app_assoc (firstn n m) a).
  assert (Hl : length (firstn n m ++ a) = (n + length a)%nat)
    by (rewrite length_app; lia).
  rewrite firstn_app, <- Hl, firstn_all, Nat.sub_diag, firstn_O, app_nil_r.
  rewrite skipn_app, Hl.
  rewrite (skipn_all2 (firstn n m ++ a)) by lia.
  replace (n + length a + length b - (n + length a))%nat with (length b) by lia.
  rewrite skipn_skipn, length_app. simpl.
  rewrite <- !app_assoc. do 4 f_equal. lia.
Qed.

(** What a load sees inside a stored image. *)
Lemma load_store_inside m off bs k n :
  0 <= off -> off <= Z.of_nat (length m) -> 0 <= k ->
  (Z.to_nat k + n <= length bs)%nat ->
  load (store m off bs) (off + k) n = firstn n (skipn (Z.to_nat k) bs).
Proof.
  intros H0 H1 Hk Hn. unfold load, store.
  replace (Z.to_nat (off + k)) with (Z.to_nat k + Z.to_nat off)%nat by lia.
  set (a := Z.to_nat off).
  assert (Ha : length (firstn a m) = a) by (rewrite length_firstn; lia).
  rewrite <- skipn_skipn.
  rewrite skipn_app, Ha, Nat.sub_diag, (skipn_all2 (firstn a m)) by lia.
  simpl. rewrite skipn_app, firstn_app, length_skipn.
  replace (n - (length bs - Z.to_nat k))%nat with O by lia.
  now rewrite firstn_O, app_nil_r.
Qed.

Lemma load_store_same m off bs :
  0 <= off -> off <= Z.of_nat (length m) ->
  load (store m off bs) off (length bs) = bs.
Proof.
  intros H0 H1. replace off with (off + 0) at 2 by lia.
  rewrite load_store_inside by (simpl; lia). simpl. apply firstn_all.
Qed.

(** A store leaves every byte outside its range where it was. *)
Lemma nth_error_store_outside m off bs (k : nat) :
  0 <= off -> off + Z.of_nat (length bs) <= Z.of_nat (length m) ->
  Z.of_nat k < off \/ off + Z.of_nat (length bs) <= Z.of_nat k ->
  nth_error (store m off bs) k = nth_error m k.
Proof.
  intros H0 H1 Hk. unfold store.
  set (a := Z.to_nat off).
  assert (Ha : length (firstn a m) = a) by (rewrite length_firstn; lia).
  destruct Hk as [Hk|Hk].
  - rewrite nth_error_app1 by lia. rewrite nth_error_firstn.
    assert (E : (k <? a)%nat = true) by (apply Nat.ltb_lt; lia).
    now rewrite E.
  - rewrite nth_error_app2 by lia. rewrite nth_error_app2 by lia.
    rewrite nth_error_skipn, Ha. f_equal. lia.
Qed.

Lemma load_ext m m' off n :
  0 <= off ->
  (forall k : nat, off <= Z.of_nat k < off + Z.of_nat n ->
                   nth_error m' k = nth_error m k) ->
  load m' off n = load m off n.
Proof.
  intros H0 H. unfold load. apply nth_error_ext. intros i.
  destruct (Nat.lt_ge_cases i n) as [Hi|Hi].
  - rewrite !nth_error_firstn. 
    assert (E : (i <? n)%nat = true) by (apply Nat.ltb_lt; lia).
    rewrite ?E. rewrite !nth_error_skipn. apply H. lia.
  - rewrite !nth_error_firstn. 
    assert (E : (i <? n)%nat = false) by (apply Nat.ltb_ge; lia).
    now rewrite ?E.
Qed.

Lemma load_store_outside m off bs off' n :
  0 <= off -> off + Z.of_nat (length bs) <= Z.of_nat (length m) ->
  0 <= off' ->
  off' + Z.of_nat n <= off \/ off + Z.of_nat (length bs) <= off' ->
  load (store m off bs) off' n = load m off' n.
Proof.
  intros H0 H1 H2 Hd. apply load_ext; [assumption|].
  intros k Hk. apply nth_error_store_outside; lia.
Qed.

Lemma load_repeat (b : byte) (len : nat) off n :
  0 <= off -> off + Z.of_nat n <= Z.of_nat len ->
  load (repeat b len) off n = repeat b n.
Proof.
  intros H0 H1. unfold load.
  replace len with (Z.to_nat off + (n + (len - Z.to_nat off - n)))%nat by lia.
  rewrite !repeat_app.
  rewrite skipn_app, repeat_length, Nat.sub_diag, skipn_all2
    by (rewrite repeat_length; lia).
  simpl. rewrite firstn_app, repeat_length, Nat.sub_diag, firstn_all2
    by (rewrite repeat_length; lia).
  simpl. now rewrite app_nil_r.
Qed.

End Region.

(** ** Floats: comparisons, and the product that feeds [int()] *)

Section Floats.

Lemma ltb_of_leb (x y : spec_float) : SFleb x y = true -> SFltb y x = false.
Proof.
  unfold SFleb, SFltb, SFcompare.
  destruct x as [sx|sx| |sx mx ex], y as [sy|sy| |sy my ey];
    try destruct sx; try destruct sy; try (intros; congruence).
  - rewrite (Z.compare_antisym ex ey).
    change (Pos.compare_cont Eq my mx) with (Pos.compare my mx).
    change (Pos.compare_cont Eq mx my) with (Pos.compare mx my).
    rewrite (Pos.compare_antisym mx my).
    destruct (ex ?= ey), (mx ?= my)%positive; simpl; congruence.
  - rewrite (Z.compare_antisym ex ey).
    change (Pos.compare_cont Eq my mx) with (Pos.compare my mx).
    change (Pos.compare_cont Eq mx my) with (Pos.compare mx my).
    rewrite (Pos.compare_antisym mx my).
    destruct (ex ?= ey), (mx ?= my)%positive; simpl; congruence.
Qed.

Lemma iter_pos_invariant {A} (P : A -> Prop) (f : A -> A) :
  (forall x, P x -> P (f x)) -> forall p x, P x -> P (iter_pos f p x).
Proof.
  intros Hf. induction p as [p IH|p IH|]; intros x Hx; simpl; auto.
Qed.

Lemma shr_1_bounds (mrs : shr_record) :
  0 <= shr_m mrs -> 0 <= shr_m (shr_1 mrs) <= shr_m mrs.
Proof.
  destruct mrs as [m r s]. destruct m as [|p|p]; simpl.
  - lia.
  - destruct p; simpl; lia.
  - lia.
Qed.

Lemma shr_bounds (mrs : shr_record) (e n : Z) :
  0 <= shr_m mrs ->
  0 <= shr_m (fst (shr mrs e n)) <= shr_m mrs
  /\ snd (shr mrs e n) = e + Z.max 0 n.
Proof.
  intros H. unfold shr. destruct n as [|p|p]; simpl; try lia.
  split; [|lia].
  apply (iter_pos_invariant (fun x => 0 <= shr_m x <= shr_m mrs)); [|lia].
  intros x Hx. pose proof (shr_1_bounds x). lia.
Qed.

Lemma shr_m_of_loc (m : Z) (l : location) : shr_m (shr_record_of_loc m l) = m.
Proof. destruct l as [|[]]; reflexivity. Qed.

Lemma shr_fexp_bounds (m e : Z) (l : location) :
  0 <= m ->
  0 <= shr_m (fst (shr_fexp PyFloat.prec PyFloat.emax m e l)) <= m
  /\ snd (shr_fexp PyFloat.prec PyFloat.emax m e l)
     = Z.max e (fexp PyFloat.prec PyFloat.emax (Zdigits2 m + e)).
Proof.
  intros H. unfold shr_fexp.
  pose proof (shr_bounds (shr_record_of_loc m l) e
                (fexp PyFloat.prec PyFloat.emax (Zdigits2 m + e) - e)) as B.
  rewrite shr_m_of_loc in B. destruct (B H) as [B1 B2]. split; [exact B1|].
  rewrite B2. lia.
Qed.

Lemma digits2_pos_le (p : positive) (k : Z) :
  Zpos p < 2 ^ k -> Zpos (digits2_pos p) <= k.
Proof.
  revert k. induction p as [p IH|p IH|]; intros k Hk; simpl.
  - assert (0 < k) by (destruct k; simpl in *; lia).
    replace k with (Z.succ (k - 1)) in Hk by lia.
    rewrite Z.pow_succ_r in Hk by lia.
    specialize (IH (k - 1)). lia.
  - assert (0 < k) by (destruct k; simpl in *; lia).
    replace k with (Z.succ (k - 1)) in Hk by lia.
    rewrite Z.pow_succ_r in Hk by lia.
    specialize (IH (k - 1)). lia.
  - destruct k; simpl in *; lia.
Qed.

Lemma Zdigits2_le (m k : Z) : 0 <= k -> 0 <= m < 2 ^ k -> Zdigits2 m <= k.
Proof.
  intros Hk [H0 H1]. destruct m as [|p|p]; simpl; [lia| |lia].
  now apply digits2_pos_le.
Qed.

Lemma round_nearest_even_bounds (m : Z) (l : location) :
  m <= round_nearest_even m l <= m + 1.
Proof. destruct l as [|[]]; simpl; try destruct (Z.even m); lia. Qed.

Lemma fexp_monotone (a b : Z) :
  a <= b -> fexp PyFloat.prec PyFloat.emax a <= fexp PyFloat.prec PyFloat.emax b.
Proof. unfold fexp. lia. Qed.

(** Rounding a mantissa below [2 ^ k] cannot overflow when the exponent
    stays clear of the largest one. *)
Lemma binary_round_aux_finite (s : bool) (m e : Z) (l : location) (k : Z) :
  0 <= k -> 0 <= m < 2 ^ k ->
  (let e1 := Z.max e (fexp PyFloat.prec PyFloat.emax (k + e)) in
   Z.max e1 (fexp PyFloat.prec PyFloat.emax (k + 1 + e1))
   <= PyFloat.emax - PyFloat.prec) ->
  is_finite (binary_round_aux PyFloat.prec PyFloat.emax s m e l) = true.
Proof.
  intros Hk Hm He. cbv zeta in He. unfold binary_round_aux.
  pose proof (shr_fexp_bounds m e l (proj1 Hm)) as [B1 E1].
  destruct (shr_fexp PyFloat.prec PyFloat.emax m e l) as [mrs' e'].
  simpl fst in B1. simpl snd in E1.
  set (m2 := round_nearest_even (shr_m mrs') (loc_of_shr_record mrs')).
  pose proof (round_nearest_even_bounds (shr_m mrs') (loc_of_shr_record mrs')) as R.
  fold m2 in R.
  assert (H2 : 0 <= m2) by lia.
  pose proof (shr_fexp_bounds m2 e' loc_Exact H2) as [B2 E2].
  destruct (shr_fexp PyFloat.prec PyFloat.emax m2 e' loc_Exact) as [mrs'' e''].
  simpl fst in B2. simpl snd in E2.
  destruct (shr_m mrs'') as [|p|p] eqn:Em; [reflexivity| |lia].
  assert (D1 : Zdigits2 m <= k) by now apply Zdigits2_le.
  assert (D2 : Zdigits2 m2 <= k + 1).
  { apply Zdigits2_le; [lia|]. rewrite Z.pow_add_r, Z.pow_1_r by lia. lia. }
  pose proof (fexp_monotone (Zdigits2 m + e) (k + e) ltac:(lia)) as F1.
  pose proof (fexp_monotone (Zdigits2 m2 + e')
                (k + 1 + Z.max e (fexp PyFloat.prec PyFloat.emax (k + e)))
                ltac:(lia)) as F2.
  assert (Hle : e'' <= PyFloat.emax - PyFloat.prec) by lia.
  apply Z.leb_le in Hle. rewrite Hle. reflexivity.
Qed.

Lemma to_int_finite (x : spec_float) :
  is_finite x = true -> exists z, PyFloat.to_int x = Return z.
Proof. destruct x; simpl; intros H; try discriminate; eauto. Qed.

End Floats.

(** ** The admission score *)

Section Score.

Lemma literal_099 : PyFloat.literal 99 2 = S754_finite false 8917127262193582 (-53).
Proof. vm_compute. reflexivity. Qed.
Lemma H_THRESHOLD_value : H_THRESHOLD = S754_finite false 5566755282872294 (-53).
Proof. vm_compute. reflexivity. Qed.
Lemma of_int_10000 : PyFloat.of_int 10000 = S754_finite false 5497558138880000 (-39).
Proof. vm_compute. reflexivity. Qed.

Lemma PHI_value : PHI = S754_finite false 7286977268807297 (-52).
Proof. vm_compute. reflexivity. Qed.

Lemma ltb_finite_pos (m1 m2 : positive) (e1 e2 : Z) :
  SFltb (S754_finite false m1 e1) (S754_finite false m2 e2) = true <->
  e1 < e2 \/ (e1 = e2 /\ Zpos m1 < Zpos m2).
Proof.
  unfold SFltb, SFcompare.
  change (Pos.compare_cont Eq m1 m2) with (Pos.compare m1 m2).
  destruct (Z.compare_spec e1 e2) as [He|He|He].
  - destruct (Pos.compare_spec m1 m2) as [Hm|Hm|Hm]; split; intros H;
      try discriminate; try reflexivity; try (subst; lia).
  - split; [intros _; now left | reflexivity].
  - split; [discriminate | lia].
Qed.

Lemma ltb_below_pos (x : spec_float) (m : positive) (e : Z) :
  SFltb x (S754_finite false m e) = false ->
  x = S754_nan \/ x = S754_infinity false \/
  exists m' e', x = S754_finite false m' e'.
Proof.
  unfold SFltb, SFcompare. destruct x as [s|s| |s m' e']; auto.
  - discriminate.
  - destruct s; [discriminate | auto].
  - destruct s; [discriminate | eauto].
Qed.

Lemma h_score_int (x : spec_float) :
  PyFloat.ltb (PyFloat.min (PyFloat.literal 99 2) x) H_THRESHOLD = false ->
  exists z,
    PyFloat.to_int
      (PyFloat.mul (PyFloat.min (PyFloat.literal 99 2) x) (PyFloat.of_int 10000))
    = Return z.
Proof.
  unfold PyFloat.min, PyFloat.ltb.
  rewrite literal_099, H_THRESHOLD_value, of_int_10000.
  destruct (SFltb x _) eqn:Hlt.
  - intros Hge. apply to_int_finite.
    destruct (ltb_below_pos _ _ _ Hge) as [->|[->|(m & e & ->)]];
      [discriminate Hlt | discriminate Hlt |].
    apply ltb_finite_pos in Hlt.
    assert (Hn : ~ (e < -53 \/ (e = -53 /\ Zpos m < 5566755282872294))).
    { intros H. apply ltb_finite_pos in H. congruence. }
    assert (e = -53) by lia. subst e.
    assert (Hm : Zpos m < 8917127262193582) by tauto.
    unfold PyFloat.mul, SFmul. cbv [xorb].
    apply binary_round_aux_finite with (k := 106).
    + lia.
    + rewrite Pos2Z.inj_mul. split; [lia|].
      assert (E : 2 ^ 106 = 9007199254740992 * 9007199254740992) by reflexivity.
      rewrite E. apply Z.mul_lt_mono_nonneg; lia.
    + vm_compute. discriminate.
  - intros _. vm_compute. eauto.
Qed.

End Score.

(** ** C strings and the bytes that the [c_char] setter copies *)

Section CStrings.

Lemma c_string_length (a : list byte) : (length (c_string a) <= length a)%nat.
Proof.
  induction a as [|x a IH]; simpl; [lia|].
  destruct (Byte.eqb x x00); simpl; lia.
Qed.

Lemma c_string_clean (a : list byte) : ~ In x00 (c_string a).
Proof. destruct (c_string_prefix a) as (b & _ & H & _). exact H. Qed.

Lemma c_string_idem (a : list byte) : c_string (c_string a) = c_string a.
Proof. apply c_string_no_nul. apply c_string_clean. Qed.

Lemma c_string_full (a : list byte) :
  length (c_string a) = length a -> c_string a = a.
Proof.
  induction a as [|x a IH]; simpl; [reflexivity|].
  destruct (Byte.eqb x x00); simpl; intros H; [discriminate|].
  f_equal. apply IH. lia.
Qed.

Lemma copied_chars_clean (data : list byte) :
  copied_chars (ljust (firstn 32 data) 32 x00) 32
  = if (length (c_string (firstn 32 data)) <? 32)%nat
    then c_string (firstn 32 data) ++ [x00]
    else c_string (firstn 32 data).
Proof. unfold copied_chars. now rewrite c_string_ljust. Qed.

Lemma copied_chars_length (data : list byte) :
  (length (copied_chars (ljust (firstn 32 data) 32 x00) 32) <= 32)%nat.
Proof.
  rewrite copied_chars_clean.
  pose proof (c_string_length (firstn 32 data)) as H.
  pose proof (firstn_le_length 32 data) as H'.
  destruct (Nat.ltb_spec (length (c_string (firstn 32 data))) 32);
    rewrite ?length_app; cbn [length]; lia.
Qed.

Lemma payload_after_length (old data : list byte) :
  length old = 32%nat -> length (payload_after old data) = 32%nat.
Proof.
  intros H. unfold payload_after. cbv zeta.
  pose proof (copied_chars_length data).
  rewrite length_app, length_skipn. lia.
Qed.

(** Read as a C string, the field holds the payload as a C string,
    whatever it held before. *)
Lemma c_string_payload_after (old data : list byte) :
  length old = 32%nat ->
  c_string (payload_after old data) = c_string (firstn 32 data).
Proof.
  intros H. unfold payload_after. cbv zeta. rewrite copied_chars_clean.
  pose proof (c_string_length (firstn 32 data)) as Hl.
  pose proof (firstn_le_length 32 data) as Hl'.
  destruct (Nat.ltb_spec (length (c_string (firstn 32 data))) 32) as [Hlt|Hge].
  - rewrite <- app_assoc. cbn [app]. rewrite c_string_app_nul. apply c_string_idem.
  - rewrite skipn_all2 by lia. rewrite app_nil_r. apply c_string_idem.
Qed.

(** A payload without NUL among its first 32 bytes, 32 bytes long or more,
    fills the field. *)
Lemma payload_after_full (old data : list byte) :
  length old = 32%nat -> length (c_string (firstn 32 data)) = 32%nat ->
  payload_after old data = firstn 32 data.
Proof.
  intros H Hf. unfold payload_after. cbv zeta. rewrite copied_chars_clean, Hf.
  rewrite (Nat.ltb_irrefl 32).
  rewrite skipn_all2 by lia. rewrite app_nil_r.
  apply c_string_full. pose proof (firstn_le_length 32 data).
  pose proof (c_string_length (firstn 32 data)). lia.
Qed.

Lemma load_length (m : region) (off : Z) (n : nat) :
  0 <= off -> off + Z.of_nat n <= Z.of_nat (length m) ->
  length (load m off n) = n.
Proof.
  intros H0 H1. unfold load. rewrite length_firstn, length_skipn. lia.
Qed.

Lemma load_skipn (m : region) (off : Z) (k n : nat) :
  0 <= off -> skipn k (load m off n) = load m (off + Z.of_nat k) (n - k).
Proof.
  intros H0. unfold load.
  rewrite skipn_firstn_comm, skipn_skipn. do 2 f_equal. lia.
Qed.

(** Storing, after [p], the bytes that are there already is storing [p]. *)
Lemma store_pad (m : region) (off : Z) (p : list byte) (k : nat) :
  0 <= off -> off + Z.of_nat (length p) + Z.of_nat k <= Z.of_nat (length m) ->
  store m off (p ++ load m (off + Z.of_nat (length p)) k) = store m off p.
Proof.
  intros H0 H1. unfold store, load.
  replace (Z.to_nat (off + Z.of_nat (length p)))
    with (Z.to_nat off + length p)%nat by lia.
  set (a := (Z.to_nat off + length p)%nat).
  assert (L : length (firstn k (skipn a m)) = k)
    by (rewrite length_firstn, length_skipn; lia).
  rewrite length_app, L, <- app_assoc. do 2 f_equal.
  replace (Z.to_nat off + (length p + k))%nat with (k + a)%nat by lia.
  rewrite <- skipn_skipn. apply firstn_skipn.
Qed.

End CStrings.

(** ** The engine: what a call of [write_atom] does *)

Section Engine.

Lemma atom_image_length old now data s h :
  length old = 32%nat -> length (atom_image old now data s h) = 64%nat.
Proof.
  intros H. unfold atom_image.
  rewrite !length_app, !le_encode_length, payload_after_length by assumption.
  reflexivity.
Qed.

Lemma image_magic old now data s h :
  firstn 2 (atom_image old now data s h) = le_encode 2 MAGIC_SIG.
Proof. reflexivity. Qed.

Lemma image_schema old now data s h :
  firstn 2 (skipn 18 (atom_image old now data s h)) = le_encode 2 s.
Proof. reflexivity. Qed.

Lemma image_payload old now data s h :
  length old = 32%nat ->
  firstn 32 (skipn 24 (atom_image old now data s h)) = payload_after old data.
Proof.
  intros H. unfold atom_image. cbn [le_encode app skipn].
  rewrite firstn_app, payload_after_length, Nat.sub_diag, firstn_O, app_nil_r
    by assumption.
  rewrite <- (payload_after_length old data H) at 1. apply firstn_all.
Qed.

Lemma fits_ssize_t_spec (z : Z) :
  fits_ssize_t z = true <-> - PY_SSIZE_T_MAX - 1 <= z <= PY_SSIZE_T_MAX.
Proof. unfold fits_ssize_t. rewrite andb_true_iff, !Z.leb_le. tauto. Qed.

Lemma from_buffer_ok (m : region) (off : Z) :
  0 <= off -> off + 64 <= Z.of_nat (length m) ->
  off <= PY_SSIZE_T_MAX ->
  from_buffer off m = (Return off, m).
Proof.
  intros H0 H1 H2. unfold from_buffer. change struct_size with 64.
  assert (F : fits_ssize_t off = true)
    by (apply fits_ssize_t_spec; unfold PY_SSIZE_T_MAX in *; lia).
  rewrite F. cbn [negb].
  rewrite (proj2 (Z.ltb_ge _ _)) by lia.
  rewrite (proj2 (Z.ltb_ge _ _)) by lia. reflexivity.
Qed.

(** The overlay and the eight assignments amount to one store of the
    record image at the offset of the slot. *)
Lemma fill_atom_run now index data s hv h (m : region) :
  0 <= index ->
  index * ATOM_SIZE + 64 <= Z.of_nat (length m) ->
  Z.of_nat (length m) <= PY_SSIZE_T_MAX ->
  PyFloat.to_int (PyFloat.mul hv (PyFloat.of_int 10000)) = Return h ->
  PhoenixZPA.fill_atom now index data s hv m
  = (Return true,
     store m (index * ATOM_SIZE)
           (atom_image (raw_field m (index * ATOM_SIZE) payload) now data s h)).
Proof.
  intros H0 H1 H2 Hh. unfold PhoenixZPA.fill_atom, bind.
  rewrite from_buffer_ok by (unfold ATOM_SIZE in *; lia).
  unfold set_int, set_chars, lift, ret. rewrite Hh.
  change (field_size payload) with 32%nat.
  set (clean := ljust (firstn 32 data) 32 x00).
  assert (Hc : (32 <? length (c_string clean))%nat = false).
  { apply Nat.ltb_ge. pose proof (c_string_length clean) as L.
    unfold clean in L at 2. rewrite clean_payload_length in L. exact L. }
  rewrite Hc. cbv beta iota. f_equal.
  change (field_offset magic) with 0. change (field_offset pi_index) with 2.
  change (field_offset geo_hash) with 10. change (field_offset schema) with 18.
  change (field_offset h_score) with 20. change (field_offset flags) with 22.
  change (field_offset payload) with 24. change (field_offset strands) with 56.
  change (field_size magic) with 2%nat. change (field_size pi_index) with 8%nat.
  change (field_size geo_hash) with 8%nat. change (field_size schema) with 2%nat.
  change (field_size h_score) with 2%nat. change (field_size flags) with 2%nat.
  change (field_size strands) with 8%nat.
  unfold raw_field. change (field_offset payload) with 24.
  change (field_size payload) with 32%nat.
  unfold ATOM_SIZE in *. set (off := index * 64) in *.
  do 5 (rewrite (store_store_adjacent m)
         by (rewrite ?length_app, ?le_encode_length; lia)).
  set (ints := ((((le_encode 2 MAGIC_SIG ++ le_encode 8 now)
                    ++ le_encode 8 0xCAFEBABE) ++ le_encode 2 s)
                  ++ le_encode 2 h) ++ le_encode 2 42).
  assert (Li : length ints = 24%nat)
    by (unfold ints; rewrite !length_app, !le_encode_length; reflexivity).
  set (p := copied_chars clean 32).
  assert (Lp : (length p <= 32)%nat) by apply copied_chars_length.
  set (m1 := store m (off + 0) ints).
  assert (L1 : length m1 = length m) by (apply store_length; lia).
  rewrite <- (store_pad m1 (off + 24) p (32 - length p)) by lia.
  assert (Eold : load m1 (off + 24 + Z.of_nat (length p)) (32 - length p)
                 = skipn (length p) (load m (off + 24) 32)).
  { rewrite load_skipn by lia. unfold m1. apply load_store_outside; lia. }
  rewrite Eold. unfold m1.
  rewrite (store_store_adjacent m) by lia.
  rewrite (store_store_adjacent m)
    by (rewrite ?length_app, ?length_skipn, ?load_length; lia).
  rewrite Z.add_0_r. unfold atom_image, payload_after, ints, p, clean.
  cbv zeta. now rewrite <- !app_assoc.
Qed.

Lemma slot_in_region self i :
  wf self -> 0 <= i < PhoenixZPA.atom_capacity self ->
  i * ATOM_SIZE + 64 <= Z.of_nat (length (PhoenixZPA.map self)).
Proof. unfold wf, ATOM_SIZE. intros [Hwf _] Hi. nia. Qed.

Lemma region_fits self : wf self ->
  Z.of_nat (length (PhoenixZPA.map self)) <= PY_SSIZE_T_MAX.
Proof. intros [_ H]. exact H. Qed.

Lemma raw_payload_length (m : region) (off : Z) :
  0 <= off -> off + 64 <= Z.of_nat (length m) ->
  length (raw_field m off payload) = 32%nat.
Proof.
  intros H0 H1. unfold raw_field.
  change (field_offset payload) with 24. change (field_size payload) with 32%nat.
  apply load_length; lia.
Qed.

Lemma ltb_score_of_admissible data :
  admissible data ->
  PyFloat.ltb (PhoenixZPA._calculate_h_score data) H_THRESHOLD = false.
Proof. apply ltb_of_leb. Qed.

Lemma write_atom_full self now i data s :
  PhoenixZPA.atom_capacity self <= i ->
  PhoenixZPA.write_atom self now i data s = (Raise IndexError, self).
Proof.
  intros H. unfold PhoenixZPA.write_atom.
  now rewrite (proj2 (Z.geb_le _ _) H).
Qed.

Lemma geb_false (a b : Z) : a < b -> (a >=? b) = false.
Proof. intros H. rewrite Z.geb_leb. apply Z.leb_gt. lia. Qed.

Lemma write_atom_rejected self now i data s :
  i < PhoenixZPA.atom_capacity self ->
  PyFloat.ltb (PhoenixZPA._calculate_h_score data) H_THRESHOLD = true ->
  PhoenixZPA.write_atom self now i data s = (Return false, self).
Proof.
  intros H Hs. unfold PhoenixZPA.write_atom.
  now rewrite (geb_false _ _ H), Hs.
Qed.

Lemma write_atom_negative self now i data s :
  i < 0 -> - PY_SSIZE_T_MAX - 1 <= i * ATOM_SIZE ->
  i < PhoenixZPA.atom_capacity self ->
  PyFloat.ltb (PhoenixZPA._calculate_h_score data) H_THRESHOLD = false ->
  PhoenixZPA.write_atom self now i data s = (Raise ValueError, self).
Proof.
  intros Hn Hf H Hs. unfold PhoenixZPA.write_atom.
  rewrite (geb_false _ _ H), Hs.
  unfold PhoenixZPA.on_map, PhoenixZPA.fill_atom, bind, from_buffer.
  assert (F : fits_ssize_t (i * ATOM_SIZE) = true)
    by (apply fits_ssize_t_spec; unfold ATOM_SIZE, PY_SSIZE_T_MAX in *; lia).
  rewrite F. cbn [negb].
  unfold ATOM_SIZE. rewrite (proj2 (Z.ltb_lt _ _)) by lia.
  now destruct self.
Qed.

Lemma write_atom_overflow self now i data s :
  i * ATOM_SIZE < - PY_SSIZE_T_MAX - 1 ->
  i < PhoenixZPA.atom_capacity self ->
  PyFloat.ltb (PhoenixZPA._calculate_h_score data) H_THRESHOLD = false ->
  PhoenixZPA.write_atom self now i data s = (Raise OverflowError, self).
Proof.
  intros Hf H Hs. unfold PhoenixZPA.write_atom.
  rewrite (geb_false _ _ H), Hs.
  unfold PhoenixZPA.on_map, PhoenixZPA.fill_atom, bind, from_buffer.
  assert (F : fits_ssize_t (i * ATOM_SIZE) = false).
  { unfold fits_ssize_t. apply andb_false_iff. left. apply Z.leb_gt. lia. }
  rewrite F. cbn [negb]. now destruct self.
Qed.

Lemma write_atom_admitted self now i data s :
  wf self -> 0 <= i < PhoenixZPA.atom_capacity self ->
  PyFloat.ltb (PhoenixZPA._calculate_h_score data) H_THRESHOLD = false ->
  PhoenixZPA.write_atom self now i data s
  = (Return true, with_map self (region_after self now i data s)).
Proof.
  intros Hwf Hi Hs. unfold PhoenixZPA.write_atom.
  rewrite (geb_false _ _ (proj2 Hi)), Hs.
  assert (Hint : exists z,
             PyFloat.to_int (PyFloat.mul (PhoenixZPA._calculate_h_score data)
                                         (PyFloat.of_int 10000)) = Return z)
    by exact (h_score_int _ Hs).
  destruct Hint as [z Hz].
  unfold PhoenixZPA.on_map.
  rewrite (fill_atom_run now i data s _ z);
    [|lia|now apply slot_in_region|now apply region_fits|exact Hz].
  unfold region_after, h_field. now rewrite Hz.
Qed.

(** Every call of [write_atom] ends in one of five ways. *)
Lemma write_atom_cases self now i data s :
  wf self ->
  PhoenixZPA.write_atom self now i data s = (Raise IndexError, self)
  \/ PhoenixZPA.write_atom self now i data s = (Return false, self)
  \/ PhoenixZPA.write_atom self now i data s = (Raise OverflowError, self)
  \/ PhoenixZPA.write_atom self now i data s = (Raise ValueError, self)
  \/ (0 <= i < PhoenixZPA.atom_capacity self
      /\ PyFloat.ltb (PhoenixZPA._calculate_h_score data) H_THRESHOLD = false
      /\ PhoenixZPA.write_atom self now i data s
         = (Return true, with_map self (region_after self now i data s))).
Proof.
  intros Hwf.
  destruct (Z_le_gt_dec (PhoenixZPA.atom_capacity self) i) as [Hc|Hc].
  { left. now apply write_atom_full. }
  destruct (PyFloat.ltb (PhoenixZPA._calculate_h_score data) H_THRESHOLD) eqn:Hs.
  { right; left. apply write_atom_rejected; [lia|assumption]. }
  destruct (Z_lt_ge_dec (i * ATOM_SIZE) (- PY_SSIZE_T_MAX - 1)) as [Ho|Ho].
  { right; right; left. apply write_atom_overflow; [lia|lia|assumption]. }
  destruct (Z_lt_ge_dec i 0) as [Hn|Hn].
  { do 3 right; left. apply write_atom_negative; [lia|lia|lia|assumption]. }
  do 4 right. split; [lia|]. split; [reflexivity|].
  apply write_atom_admitted; [assumption|lia|assumption].
Qed.

Lemma old_payload_length self i :
  wf self -> 0 <= i < PhoenixZPA.atom_capacity self ->
  length (raw_field (PhoenixZPA.map self) (i * ATOM_SIZE) payload) = 32%nat.
Proof.
  intros Hwf Hi. pose proof (slot_in_region self i Hwf Hi).
  apply raw_payload_length; unfold ATOM_SIZE in *; lia.
Qed.

Lemma region_after_length self now i data s :
  wf self -> 0 <= i < PhoenixZPA.atom_capacity self ->
  length (region_after self now i data s) = length (PhoenixZPA.map self).
Proof.
  intros Hwf Hi. pose proof (slot_in_region self i Hwf Hi).
  unfold region_after.
  apply store_length;
    rewrite ?atom_image_length by (now apply old_payload_length);
    unfold ATOM_SIZE in *; lia.
Qed.

Lemma write_atom_wf self now i data s :
  wf self -> wf (snd (PhoenixZPA.write_atom self now i data s)).
Proof.
  intros Hwf.
  destruct (write_atom_cases self now i data s Hwf) as [E|[E|[E|[E|(Hi & _ & E)]]]];
    rewrite E; simpl; try assumption.
  unfold wf, with_map. cbn [PhoenixZPA.atom_capacity PhoenixZPA.map].
  rewrite region_after_length by assumption. exact Hwf.
Qed.

Lemma write_atom_capacity self now i data s :
  PhoenixZPA.atom_capacity (snd (PhoenixZPA.write_atom self now i data s))
  = PhoenixZPA.atom_capacity self
  /\ PhoenixZPA.size_bytes (snd (PhoenixZPA.write_atom self now i data s))
     = PhoenixZPA.size_bytes self.
Proof.
  unfold PhoenixZPA.write_atom.
  destruct (i >=? _); [auto|]. destruct (PyFloat.ltb _ _); [auto|].
  unfold PhoenixZPA.on_map. destruct (PhoenixZPA.fill_atom _ _ _ _ _ _). auto.
Qed.

(** A call leaves every byte outside the slot of its index where it was. *)
Lemma write_atom_outside self now i data s (k : nat) :
  wf self ->
  Z.of_nat k < i * ATOM_SIZE \/ i * ATOM_SIZE + 64 <= Z.of_nat k ->
  nth_error (PhoenixZPA.map (snd (PhoenixZPA.write_atom self now i data s))) k
  = nth_error (PhoenixZPA.map self) k.
Proof.
  intros Hwf Hk.
  destruct (write_atom_cases self now i data s Hwf) as [E|[E|[E|[E|(Hi & _ & E)]]]];
    rewrite E; simpl; try reflexivity.
  pose proof (slot_in_region self i Hwf Hi).
  unfold region_after.
  apply nth_error_store_outside;
    rewrite ?atom_image_length by (now apply old_payload_length);
    unfold ATOM_SIZE in *; lia.
Qed.

(** Reading the fields of a slot that holds a record image. *)
Lemma stored_magic (m : region) off old now data s h :
  length old = 32%nat -> 0 <= off -> off <= Z.of_nat (length m) ->
  get_int (store m off (atom_image old now data s h)) off magic = MAGIC_SIG.
Proof.
  intros Ho H0 H1. unfold get_int.
  change (field_offset magic) with 0. change (field_size magic) with 2%nat.
  rewrite load_store_inside by (rewrite ?atom_image_length by assumption; simpl; lia).
  change (Z.to_nat 0) with 0%nat. cbn [skipn].
  rewrite image_magic. reflexivity.
Qed.

Lemma stored_schema (m : region) off old now data s h :
  length old = 32%nat -> 0 <= off -> off <= Z.of_nat (length m) ->
  get_int (store m off (atom_image old now data s h)) off schema = s mod 2 ^ 16.
Proof.
  intros Ho H0 H1. unfold get_int.
  change (field_offset schema) with 18. change (field_size schema) with 2%nat.
  rewrite load_store_inside by (rewrite ?atom_image_length by assumption; simpl; lia).
  change (Z.to_nat 18) with 18%nat.
  rewrite image_schema. apply le_decode_encode.
Qed.

Lemma stored_payload (m : region) off old now data s h :
  length old = 32%nat -> 0 <= off -> off <= Z.of_nat (length m) ->
  raw_field (store m off (atom_image old now data s h)) off payload
  = payload_after old data.
Proof.
  intros Ho H0 H1. unfold raw_field.
  change (field_offset payload) with 24. change (field_size payload) with 32%nat.
  rewrite load_store_inside by (rewrite ?atom_image_length by assumption; simpl; lia).
  change (Z.to_nat 24) with 24%nat.
  now apply image_payload.
Qed.

Lemma stored_chars (m : region) off old now data s h :
  length old = 32%nat -> 0 <= off -> off <= Z.of_nat (length m) ->
  get_chars (store m off (atom_image old now data s h)) off payload
  = c_string (firstn 32 data).
Proof.
  intros Ho H0 H1. unfold get_chars.
  fold (raw_field (store m off (atom_image old now data s h)) off payload).
  rewrite stored_payload by assumption. now apply c_string_payload_after.
Qed.

Lemma read_atom_in_range self i :
  0 <= i -> i * ATOM_SIZE + 64 <= Z.of_nat (length (PhoenixZPA.map self)) ->
  i * ATOM_SIZE <= PY_SSIZE_T_MAX ->
  PhoenixZPA.read_atom self i
  = if negb (get_int (PhoenixZPA.map self) (i * ATOM_SIZE) magic =? MAGIC_SIG)
    then Return None else Return (Some (i * ATOM_SIZE)).
Proof.
  intros H0 H1 H2. unfold PhoenixZPA.read_atom.
  rewrite from_buffer_ok by (unfold ATOM_SIZE in *; lia). reflexivity.
Qed.

Lemma read_atom_out_of_range self i :
  - PY_SSIZE_T_MAX - 1 <= i * ATOM_SIZE <= PY_SSIZE_T_MAX ->
  i < 0 \/ Z.of_nat (length (PhoenixZPA.map self)) < i * ATOM_SIZE + 64 ->
  PhoenixZPA.read_atom self i = Raise ValueError.
Proof.
  intros Hf H. unfold PhoenixZPA.read_atom, from_buffer.
  rewrite (proj2 (fits_ssize_t_spec _) Hf). cbn [negb].
  change struct_size with 64. unfold ATOM_SIZE in *.
  destruct (Z.ltb_spec (i * 64) 0); [reflexivity|].
  rewrite (proj2 (Z.ltb_lt _ _)) by lia. reflexivity.
Qed.

Lemma read_atom_overflow self i :
  i * ATOM_SIZE < - PY_SSIZE_T_MAX - 1 \/ PY_SSIZE_T_MAX < i * ATOM_SIZE ->
  PhoenixZPA.read_atom self i = Raise OverflowError.
Proof.
  intros H. unfold PhoenixZPA.read_atom, from_buffer.
  assert (F : fits_ssize_t (i * ATOM_SIZE) = false).
  { unfold fits_ssize_t. apply andb_false_iff.
    destruct H; [left|right]; apply Z.leb_gt; lia. }
  rewrite F. reflexivity.
Qed.

End Engine.

(** ** Construction *)

Section Construction.

Lemma init_new (size_mb : Z) :
  0 < size_mb -> size_mb * 1024 * 1024 <= PY_SSIZE_T_MAX ->
  PhoenixZPA.__init__ None size_mb
  = Return (PhoenixZPA.mk (size_mb * 1024 * 1024)
                          (size_mb * 1024 * 1024 / ATOM_SIZE)
                          (repeat x00 (Z.to_nat (size_mb * 1024 * 1024)))).
Proof.
  intros H Hmax. unfold PhoenixZPA.__init__, PhoenixZPA._init_storage.
  set (sz := size_mb * 1024 * 1024) in *.
  assert (Hsz : 0 < sz) by (unfold sz; lia).
  rewrite (proj2 (Z.ltb_ge sz 0)) by lia. cbn [andb].
  rewrite (proj2 (Z.ltb_ge PY_SSIZE_T_MAX sz)) by lia.
  rewrite (proj2 (Z.eqb_neq sz 0)) by lia.
  rewrite repeat_length, Z2Nat.id by lia.
  rewrite Z.ltb_irrefl.
  rewrite firstn_all2 by (rewrite repeat_length; lia).
  reflexivity.
Qed.

Lemma init_1mb : PhoenixZPA.__init__ None 1 = Return engine_1mb.
Proof. apply init_new; unfold PY_SSIZE_T_MAX; lia. Qed.

Lemma init_fields existing size_mb self :
  PhoenixZPA.__init__ existing size_mb = Return self ->
  PhoenixZPA.size_bytes self = size_mb * 1024 * 1024
  /\ PhoenixZPA.atom_capacity self = size_mb * 1024 * 1024 / ATOM_SIZE
  /\ 0 <= size_mb
  /\ Z.of_nat (length (PhoenixZPA.map self)) <= PY_SSIZE_T_MAX
  /\ (0 < size_mb ->
      Z.of_nat (length (PhoenixZPA.map self)) = size_mb * 1024 * 1024).
Proof.
  unfold PhoenixZPA.__init__, PhoenixZPA._init_storage.
  set (sz := size_mb * 1024 * 1024).
  set (file := match existing with
               | Some bs => bs
               | None => repeat x00 (Z.to_nat sz)
               end).
  destruct (Z.ltb_spec sz 0) as [Hneg|Hpos].
  { rewrite andb_true_r. destruct existing; cbn [andb];
      [destruct (PY_SSIZE_T_MAX <? sz)|]; discriminate. }
  rewrite andb_false_r.
  destruct (Z.ltb_spec PY_SSIZE_T_MAX sz) as [Hbig|Hfit]; [discriminate|].
  destruct (Z.eqb_spec sz 0) as [Hz|Hnz].
  { destruct file eqn:Ef; [discriminate|].
    destruct (Z.ltb_spec PY_SSIZE_T_MAX (Z.of_nat (length (b :: l))))
      as [Hl|Hl]; [discriminate|].
    intros E. injection E as <-.
    cbn [PhoenixZPA.size_bytes PhoenixZPA.atom_capacity PhoenixZPA.map].
    split; [reflexivity|]. split; [reflexivity|].
    split; [unfold sz in *; lia|]. split; [exact Hl|unfold sz in *; lia]. }
  destruct (Z.ltb_spec (Z.of_nat (length file)) sz) as [Hs|Hs]; [discriminate|].
  intros E. injection E as <-.
  cbn [PhoenixZPA.size_bytes PhoenixZPA.atom_capacity PhoenixZPA.map].
  split; [reflexivity|]. split; [reflexivity|].
  split; [unfold sz in *; lia|].
  split; [|intros _]; rewrite length_firstn; lia.
Qed.

Lemma init_wf existing size_mb self :
  PhoenixZPA.__init__ existing size_mb = Return self -> wf self.
Proof.
  intros E. destruct (init_fields _ _ _ E) as (Hs & Hc & H0 & Hm & Hl).
  unfold wf. split; [|exact Hm]. rewrite Hc. unfold ATOM_SIZE.
  destruct (Z.eq_dec size_mb 0) as [->|Hn]; [simpl; lia|].
  rewrite Hl by lia.
  replace (size_mb * 1024 * 1024) with (size_mb * 16384 * 64) by lia.
  rewrite Z.div_mul by lia. lia.
Qed.

Lemma engine_1mb_wf : wf engine_1mb.
Proof. exact (init_wf None 1 engine_1mb init_1mb). Qed.

Lemma engine_1mb_capacity : PhoenixZPA.atom_capacity engine_1mb = 16384.
Proof. reflexivity. Qed.

End Construction.

(** ** A write followed by a read *)

Section WriteThenRead.

Variables (self : PhoenixZPA.t) (now i : Z) (data : list byte) (s : Z).
Hypothesis Hwf : wf self.
Hypothesis Hi : 0 <= i < PhoenixZPA.atom_capacity self.
Hypothesis Hadm : admissible data.

Let m' : region := region_after self now i data s.

Let old : list byte := raw_field (PhoenixZPA.map self) (i * ATOM_SIZE) payload.

Lemma admitted_write :
  PhoenixZPA.write_atom self now i data s = (Return true, with_map self m').
Proof. apply write_atom_admitted; auto using ltb_score_of_admissible. Qed.

Lemma slot_bounds :
  0 <= i * ATOM_SIZE
  /\ i * ATOM_SIZE + 64 <= Z.of_nat (length (PhoenixZPA.map self)).
Proof.
  pose proof (slot_in_region self i Hwf Hi). unfold ATOM_SIZE in *. lia.
Qed.

Lemma admitted_old : length old = 32%nat.
Proof. now apply old_payload_length. Qed.

Lemma admitted_length : length m' = length (PhoenixZPA.map self).
Proof. now apply region_after_length. Qed.

Lemma admitted_wf : wf (with_map self m').
Proof.
  unfold wf, with_map. cbn [PhoenixZPA.atom_capacity PhoenixZPA.map].
  rewrite admitted_length. exact Hwf.
Qed.

Lemma admitted_magic : get_int m' (i * ATOM_SIZE) magic = MAGIC_SIG.
Proof. destruct slot_bounds. apply stored_magic; [apply admitted_old|lia..]. Qed.

Lemma admitted_schema : get_int m' (i * ATOM_SIZE) schema = s mod 2 ^ 16.
Proof. destruct slot_bounds. apply stored_schema; [apply admitted_old|lia..]. Qed.

(** The payload field afterwards: the bytes copied, then what the field
    held before. *)
Lemma admitted_payload :
  raw_field m' (i * ATOM_SIZE) payload = payload_after old data.
Proof. destruct slot_bounds. apply stored_payload; [apply admitted_old|lia..]. Qed.

Lemma admitted_chars :
  get_chars m' (i * ATOM_SIZE) payload = c_string (firstn 32 data).
Proof. destruct slot_bounds. apply stored_chars; [apply admitted_old|lia..]. Qed.

Lemma admitted_slot :
  load m' (i * ATOM_SIZE) 64 = atom_image old now data s (h_field data).
Proof.
  destruct slot_bounds.
  pose proof (load_store_same (PhoenixZPA.map self) (i * ATOM_SIZE)
                (atom_image old now data s (h_field data))) as L.
  rewrite atom_image_length in L by apply admitted_old. apply L; lia.
Qed.

Lemma admitted_read :
  PhoenixZPA.read_atom (with_map self m') i = Return (Some (i * ATOM_SIZE)).
Proof.
  destruct slot_bounds. pose proof (region_fits self Hwf).
  rewrite read_atom_in_range; cbn [with_map PhoenixZPA.map];
    [|lia|rewrite admitted_length; lia|lia].
  rewrite admitted_magic. reflexivity.
Qed.

Lemma admitted_outside (k : nat) :
  Z.of_nat k < i * ATOM_SIZE \/ i * ATOM_SIZE + 64 <= Z.of_nat k ->
  nth_error m' k = nth_error (PhoenixZPA.map self) k.
Proof.
  intros Hk. destruct slot_bounds.
  apply nth_error_store_outside;
    rewrite ?atom_image_length by (apply admitted_old); lia.
Qed.

Lemma admitted_other_slot (j : Z) :
  0 <= j -> j <> i ->
  load m' (j * ATOM_SIZE) 64 = load (PhoenixZPA.map self) (j * ATOM_SIZE) 64.
Proof.
  intros Hj Hne. destruct slot_bounds.
  apply load_store_outside;
    rewrite ?atom_image_length by (apply admitted_old);
    unfold ATOM_SIZE in *; lia.
Qed.

End WriteThenRead.

Lemma admissible_A : admissible [x41].
Proof. vm_compute. reflexivity. Qed.

Lemma engine_1mb_slot (i : Z) :
  0 <= i < 16384 -> 0 <= i < PhoenixZPA.atom_capacity engine_1mb.
Proof. rewrite engine_1mb_capacity. trivial. Qed.
(** ** Rounding from above: scores that stay under the threshold *)

Section RoundingBounds.

Lemma shr_1_half (x : shr_record) :
  0 <= shr_m x -> 0 <= shr_m (shr_1 x) /\ 2 * shr_m (shr_1 x) <= shr_m x.
Proof.
  destruct x as [m r s]. destruct m as [|p|p]; simpl; try lia.
  destruct p; simpl; lia.
Qed.

Lemma iter_shr_1_div (p : positive) (x : shr_record) :
  0 <= shr_m x ->
  0 <= shr_m (iter_pos shr_1 p x)
  /\ shr_m (iter_pos shr_1 p x) * 2 ^ Zpos p <= shr_m x.
Proof.
  revert x. induction p as [p IH|p IH|]; intros x Hx; cbn [iter_pos].
  - destruct (shr_1_half x Hx) as [A0 A1].
    destruct (IH _ A0) as [B0 B1]. destruct (IH _ B0) as [C0 C1].
    split; [exact C0|].
    replace (Zpos p~1) with (Zpos p + Zpos p + 1) by lia.
    rewrite !Z.pow_add_r, Z.pow_1_r by lia.
    assert (0 < 2 ^ Zpos p) by (apply Z.pow_pos_nonneg; lia). nia.
  - destruct (IH _ Hx) as [B0 B1]. destruct (IH _ B0) as [C0 C1].
    split; [exact C0|].
    replace (Zpos p~0) with (Zpos p + Zpos p) by lia.
    rewrite !Z.pow_add_r by lia.
    assert (0 < 2 ^ Zpos p) by (apply Z.pow_pos_nonneg; lia). nia.
  - destruct (shr_1_half x Hx). rewrite Z.pow_1_r. lia.
Qed.

Lemma shr_fexp_value (m e : Z) (l : location) :
  0 <= m ->
  let r := shr_fexp PyFloat.prec PyFloat.emax m e l in
  0 <= shr_m (fst r)
  /\ snd r = Z.max e (fexp PyFloat.prec PyFloat.emax (Zdigits2 m + e))
  /\ shr_m (fst r) * 2 ^ (snd r - e) <= m.
Proof.
  intros Hm r. subst r. unfold shr_fexp, shr.
  set (n := fexp PyFloat.prec PyFloat.emax (Zdigits2 m + e) - e).
  assert (Hn : fexp PyFloat.prec PyFloat.emax (Zdigits2 m + e) = e + n)
    by (unfold n; lia).
  rewrite Hn. clearbody n.
  destruct n as [|p|p]; cbn [fst snd].
  - rewrite shr_m_of_loc. replace (e - e) with 0 by lia. simpl. lia.
  - pose proof (iter_shr_1_div p (shr_record_of_loc m l)) as H.
    rewrite shr_m_of_loc in H. destruct (H Hm) as [H0 H1].
    split; [exact H0|]. split; [lia|].
    replace (e + Zpos p - e) with (Zpos p) by lia. exact H1.
  - rewrite shr_m_of_loc. replace (e - e) with 0 by lia. simpl. lia.
Qed.

Lemma below_pow2 (m a b : Z) :
  0 <= b -> 0 <= a -> m * 2 ^ b < 2 ^ (a + b) -> m < 2 ^ a.
Proof.
  intros Hb Ha H. rewrite Z.pow_add_r in H by lia.
  assert (0 < 2 ^ b) by (apply Z.pow_pos_nonneg; lia). nia.
Qed.

Lemma fexp_small (d : Z) :
  d <= 0 -> -1074 <= fexp PyFloat.prec PyFloat.emax d <= -53.
Proof. unfold fexp, emin, PyFloat.prec, PyFloat.emax. lia. Qed.

(** A positive value below one, given on an exponent of at most [-53],
    rounds to a float that exceeds it by at most [2 ^ -53] and keeps an
    exponent of at most [-53]. Values are scaled by [2 ^ K]. *)
Lemma binary_round_aux_below (m e : Z) (l : location) (K V : Z) :
  0 <= m -> 0 <= e + K -> e <= -53 ->
  m * 2 ^ (e + K) <= V -> V + 2 ^ (K - 53) < 2 ^ K ->
  binary_round_aux PyFloat.prec PyFloat.emax false m e l = S754_zero false
  \/ exists m' e',
      binary_round_aux PyFloat.prec PyFloat.emax false m e l
      = S754_finite false m' e'
      /\ e <= e' <= -53
      /\ Zpos m' * 2 ^ (e' + K) <= V + 2 ^ (K - 53).
Proof.
  intros Hm HK He HV Hone.
  assert (HK53 : 0 < 2 ^ (K - 53)) by (apply Z.pow_pos_nonneg; lia).
  assert (Hpow : forall a b, a <= b -> b <= -53 -> 0 <= a + K ->
                             2 ^ (b + K) = 2 ^ (b - a) * 2 ^ (a + K)).
  { intros a b Hab Hb Ha. rewrite <- Z.pow_add_r by lia. f_equal. lia. }
  assert (Hle53 : forall a, a <= -53 -> 0 <= a + K -> 2 ^ (a + K) <= 2 ^ (K - 53)).
  { intros a Ha Ha'. apply Z.pow_le_mono_r; lia. }
  assert (Hdig : forall x a, 0 <= x -> a <= -53 -> 0 <= a + K ->
                   x * 2 ^ (a + K) < 2 ^ K -> Zdigits2 x + a <= 0).
  { intros x a Hx Ha Ha' Hlt.
    assert (x < 2 ^ (- a)).
    { apply (below_pow2 x (- a) (a + K)); try lia.
      replace (- a + (a + K)) with K by lia. exact Hlt. }
    pose proof (Zdigits2_le x (- a) ltac:(lia) ltac:(lia)). lia. }
  unfold binary_round_aux.
  pose proof (shr_fexp_value m e l Hm) as S1. cbv zeta in S1.
  destruct (shr_fexp PyFloat.prec PyFloat.emax m e l) as [mrs1 e1].
  cbn [fst snd] in S1. destruct S1 as (A0 & A1 & A2).
  assert (D1 : Zdigits2 m + e <= 0) by (apply Hdig; lia).
  pose proof (fexp_small _ D1) as F1.
  assert (E1 : e <= e1 <= -53) by lia.
  assert (V1 : shr_m mrs1 * 2 ^ (e1 + K) <= V).
  { rewrite (Hpow e e1) by lia.
    assert (0 < 2 ^ (e + K)) by (apply Z.pow_pos_nonneg; lia). nia. }
  set (m2 := round_nearest_even (shr_m mrs1) (loc_of_shr_record mrs1)).
  pose proof (round_nearest_even_bounds (shr_m mrs1) (loc_of_shr_record mrs1)) as R.
  fold m2 in R.
  assert (Hm2 : 0 <= m2) by lia.
  assert (V2 : m2 * 2 ^ (e1 + K) <= V + 2 ^ (K - 53)).
  { pose proof (Hle53 e1 ltac:(lia) ltac:(lia)).
    assert (0 < 2 ^ (e1 + K)) by (apply Z.pow_pos_nonneg; lia). nia. }
  pose proof (shr_fexp_value m2 e1 loc_Exact Hm2) as S2. cbv zeta in S2.
  destruct (shr_fexp PyFloat.prec PyFloat.emax m2 e1 loc_Exact) as [mrs2 e2].
  cbn [fst snd] in S2. destruct S2 as (B0 & B1 & B2).
  assert (D2 : Zdigits2 m2 + e1 <= 0) by (apply Hdig; lia).
  pose proof (fexp_small _ D2) as F2.
  assert (E2 : e1 <= e2 <= -53) by lia.
  assert (V3 : shr_m mrs2 * 2 ^ (e2 + K) <= V + 2 ^ (K - 53)).
  { rewrite (Hpow e1 e2) by lia.
    assert (0 < 2 ^ (e1 + K)) by (apply Z.pow_pos_nonneg; lia). nia. }
  destruct (shr_m mrs2) as [|p|p] eqn:Em; [now left| |lia].
  right. exists p, e2.
  assert (Hle : (e2 <=? PyFloat.emax - PyFloat.prec) = true)
    by (apply Z.leb_le; unfold PyFloat.emax, PyFloat.prec; lia).
  rewrite Hle. split; [reflexivity|]. split; [lia | exact V3].
Qed.

End RoundingBounds.

(** ** Payloads with few distinct bytes are rejected *)

Section LowRatio.

Lemma digits2_pos_log2 (p : positive) :
  Zpos (digits2_pos p) = Z.log2 (Zpos p) + 1.
Proof.
  induction p as [p IH|p IH|]; [| |reflexivity];
    cbn [digits2_pos]; rewrite Pos2Z.inj_succ, IH.
  - rewrite <- Z.add_1_r. f_equal.
    change (Zpos p~1) with (2 * Zpos p + 1).
    rewrite Z.log2_succ_double by lia. lia.
  - rewrite <- Z.add_1_r. f_equal.
    change (Zpos p~0) with (2 * Zpos p).
    rewrite Z.log2_double by lia. lia.
Qed.

Lemma digits2_pos_mono (a b : positive) :
  Zpos a <= Zpos b -> Zpos (digits2_pos a) <= Zpos (digits2_pos b).
Proof.
  intros H. rewrite !digits2_pos_log2.
  pose proof (Z.log2_le_mono _ _ H). lia.
Qed.

(** The scale of the bounds below: [2 ^ 1126]. *)
Lemma int_true_div_low (d n : positive) :
  3 * Zpos d <= Zpos n ->
  PyFloat.int_true_div d n = S754_zero false
  \/ exists m e,
      PyFloat.int_true_div d n = S754_finite false m e
      /\ -1074 <= e <= -53
      /\ Zpos m * 2 ^ (e + 1126) <= 2 ^ 1126 / 3 + 2 ^ (1126 - 53).
Proof.
  intros H3.
  unfold PyFloat.int_true_div, PyFloat.div, SFdiv, SFdiv_core_binary.
  cbn [xorb Zdigits2].
  pose proof (digits2_pos_mono d n ltac:(lia)) as Hd.
  set (dd := Zpos (digits2_pos d)) in *. set (dn := Zpos (digits2_pos n)) in *.
  pose proof (fexp_small (dd + 0 - (dn + 0)) ltac:(lia)) as Hf.
  set (e' := Z.min (fexp PyFloat.prec PyFloat.emax (dd + 0 - (dn + 0))) (0 - 0)).
  assert (He' : -1074 <= e' <= -53) by (unfold e'; lia).
  clearbody e'.
  destruct (0 - 0 - e') as [|s|s] eqn:Es; try lia.
  rewrite Z.shiftl_mul_pow2 by lia.
  destruct (Z.div_eucl (Zpos d * 2 ^ Zpos s) (Zpos n)) as [q r] eqn:Eq.
  assert (Hq : q = Zpos d * 2 ^ Zpos s / Zpos n) by (unfold Z.div; now rewrite Eq).
  assert (Hs : Zpos s = - e') by lia.
  assert (P : 0 < 2 ^ Zpos s) by (apply Z.pow_pos_nonneg; lia).
  assert (Hq0 : 0 <= q) by (subst q; apply Z.div_pos; lia).
  assert (Hqn : q * Zpos n <= Zpos d * 2 ^ Zpos s).
  { subst q. rewrite Z.mul_comm. apply Z.mul_div_le. lia. }
  assert (Hq3 : 3 * q <= 2 ^ Zpos s) by nia.
  destruct (binary_round_aux_below q e' (new_location (Zpos n) r) 1126
              (2 ^ 1126 / 3)) as [E|(m & e & E & He & Hv)]; try lia.
  - apply Z.div_le_lower_bound; [lia|].
    replace (2 ^ 1126) with (2 ^ Zpos s * 2 ^ (e' + 1126)).
    + assert (0 < 2 ^ (e' + 1126)) by (apply Z.pow_pos_nonneg; lia). nia.
    + rewrite <- Z.pow_add_r by lia. f_equal. lia.
  - vm_compute. reflexivity.
  - now left.
  - right. exists m, e. split; [exact E|]. split; [lia | exact Hv].
Qed.

Lemma min_below (x : spec_float) (m : positive) (e : Z) :
  x = S754_zero false
  \/ (exists m' e', x = S754_finite false m' e'
                    /\ (e' < -53 \/ (e' = -53 /\ Zpos m' < 5566755282872294))) ->
  PyFloat.ltb (PyFloat.min (PyFloat.literal 99 2) x) H_THRESHOLD = true.
Proof.
  rewrite literal_099, H_THRESHOLD_value. unfold PyFloat.min, PyFloat.ltb.
  intros [->|(m' & e' & -> & H)]; [reflexivity|].
  assert (L1 : SFltb (S754_finite false m' e')
                     (S754_finite false 8917127262193582 (-53)) = true)
    by (apply ltb_finite_pos; lia).
  rewrite L1. apply ltb_finite_pos. exact H.
Qed.

Lemma mul_PHI_low (a : spec_float) :
  a = S754_zero false
  \/ (exists m e, a = S754_finite false m e
                  /\ -1074 <= e <= -53
                  /\ Zpos m * 2 ^ (e + 1126) <= 2 ^ 1126 / 3 + 2 ^ (1126 - 53)) ->
  PyFloat.ltb (PyFloat.min (PyFloat.literal 99 2) (PyFloat.mul a PHI))
              H_THRESHOLD = true.
Proof.
  intros Ha. apply (min_below _ 1 0). rewrite PHI_value.
  destruct Ha as [->|(m & e & -> & He & Hv)]; [now left|].
  unfold PyFloat.mul, SFmul. cbn [xorb].
  set (W := 2 ^ 1126 / 3 + 2 ^ (1126 - 53)) in *.
  set (V := W * 7286977268807297 / 2 ^ 52).
  assert (HV : V + 2 ^ (1126 - 53) < 2 ^ 1126) by (vm_compute; reflexivity).
  assert (HB : (V + 2 ^ (1126 - 53)) / 2 ^ 1073 < 5566755282872294)
    by (vm_compute; reflexivity).
  destruct (binary_round_aux_below (Zpos (m * 7286977268807297)) (e + -52)
              loc_Exact 1126 V) as [E|(m' & e' & E & He' & Hv')];
    try lia; try exact HV.
  - unfold V. apply Z.div_le_lower_bound; [apply Z.pow_pos_nonneg; lia|].
    rewrite Pos2Z.inj_mul.
    replace (2 ^ (e + 1126)) with (2 ^ 52 * 2 ^ (e + -52 + 1126)) in Hv.
    + clearbody W. 
      assert (0 < 2 ^ (e + -52 + 1126)) by (apply Z.pow_pos_nonneg; lia).
      assert (0 < 2 ^ 52) by (apply Z.pow_pos_nonneg; lia).
      set (p := 2 ^ 52) in *. set (q := 2 ^ (e + -52 + 1126)) in *.
      clearbody p q. nia.
    + rewrite <- Z.pow_add_r by lia. f_equal. lia.
  - now left.
  - right. exists m', e'. split; [exact E|].
    destruct (Z.eq_dec e' (-53)) as [->|Hne]; [right|left; lia].
    split; [reflexivity|].
    change (-53 + 1126) with 1073 in Hv'.
    apply Z.le_lt_trans with (2 := HB).
    apply Z.div_le_lower_bound; [apply Z.pow_pos_nonneg; lia|].
    rewrite Z.mul_comm. exact Hv'.
Qed.

Lemma Zpos_of_nat (n : nat) : (1 <= n)%nat -> Zpos (Pos.of_nat n) = Z.of_nat n.
Proof.
  intros H. rewrite <- positive_nat_Z, Nat2Pos.id by lia. reflexivity.
Qed.

Lemma distinct_pos (b : byte) (data : list byte) : (1 <= distinct (b :: data))%nat.
Proof.
  unfold distinct.
  assert (In b (nodup Byte.byte_eq_dec (b :: data))) as Hin
      by (apply nodup_In; now left).
  destruct (nodup Byte.byte_eq_dec (b :: data)); [contradiction|simpl; lia].
Qed.

Lemma empty_rejected :
  PyFloat.ltb (PhoenixZPA._calculate_h_score []) H_THRESHOLD = true.
Proof. vm_compute. reflexivity. Qed.

(** A payload in which at most one byte in three is new scores under the
    threshold. *)
Lemma low_ratio_rejected (data : list byte) :
  (3 * distinct data <= length data)%nat ->
  PyFloat.ltb (PhoenixZPA._calculate_h_score data) H_THRESHOLD = true.
Proof.
  destruct data as [|b data]; [intros _; exact empty_rejected|].
  intros H. pose proof (distinct_pos b data) as Hd.
  unfold PhoenixZPA._calculate_h_score.
  apply mul_PHI_low. apply int_true_div_low.
  rewrite !Zpos_of_nat by (simpl; lia). simpl length in *. lia.
Qed.

Lemma distinct_repeat (b : byte) (n : nat) : distinct (repeat b (S n)) = 1%nat.
Proof.
  unfold distinct. induction n as [|n IH]; [reflexivity|].
  change (repeat b (S (S n))) with (b :: repeat b (S n)).
  cbn [nodup]. destruct (in_dec Byte.byte_eq_dec b (repeat b (S n))) as [_|Hn].
  - exact IH.
  - exfalso. apply Hn. now left.
Qed.

End LowRatio.


(** ** Slots that no call has written *)

Section Unwritten.

Lemma magic_of_slot (m : region) (off : Z) :
  get_int m off magic = le_decode (firstn 2 (load m off 64)).
Proof.
  unfold get_int, load.
  change (field_offset magic) with 0. change (field_size magic) with 2%nat.
  rewrite Z.add_0_r, firstn_firstn. reflexivity.
Qed.

Lemma zero_slot_magic (m : region) (off : Z) :
  load m off 64 = repeat x00 64 -> get_int m off magic = 0.
Proof. intros H. rewrite magic_of_slot, H. reflexivity. Qed.

Lemma fresh_slot (len : nat) (i : Z) :
  0 <= i -> i * ATOM_SIZE + 64 <= Z.of_nat len ->
  load (repeat x00 len) (i * ATOM_SIZE) 64 = repeat x00 64.
Proof. intros H0 H1. unfold ATOM_SIZE in *. apply load_repeat; lia. Qed.

Lemma replay_invariant (cs : list call) (self : PhoenixZPA.t) :
  wf self ->
  wf (replay self cs)
  /\ PhoenixZPA.atom_capacity (replay self cs) = PhoenixZPA.atom_capacity self.
Proof.
  revert self. induction cs as [|c cs IH]; intros self Hwf; cbn [replay].
  - now split.
  - destruct (IH (snd (do_call self c)) (write_atom_wf _ _ _ _ _ Hwf)) as [W C].
    split; [exact W|]. rewrite C. apply write_atom_capacity.
Qed.

(** An admitted write to slot [j] leaves the 64 bytes of every other slot. *)
Lemma region_after_other_slot self now j data s (i : Z) :
  wf self -> 0 <= j < PhoenixZPA.atom_capacity self -> 0 <= i -> j <> i ->
  load (region_after self now j data s) (i * ATOM_SIZE) 64
  = load (PhoenixZPA.map self) (i * ATOM_SIZE) 64.
Proof.
  intros Hwf Hj Hi Hne. pose proof (slot_in_region self j Hwf Hj).
  unfold region_after.
  apply load_store_outside;
    rewrite ?atom_image_length by (now apply old_payload_length);
    unfold ATOM_SIZE in *; lia.
Qed.

Lemma replay_unwritten (cs : list call) (self : PhoenixZPA.t) (i : Z) :
  wf self -> 0 <= i -> written self i cs = false ->
  load (PhoenixZPA.map (replay self cs)) (i * ATOM_SIZE) 64
  = load (PhoenixZPA.map self) (i * ATOM_SIZE) 64.
Proof.
  revert self. induction cs as [|c cs IH]; intros self Hwf Hi Hw;
    cbn [replay written] in *; [reflexivity|].
  pose proof (write_atom_wf self (call_now c) (call_index c) (call_data c)
                (call_schema c) Hwf) as Hwf'.
  fold (do_call self c) in Hwf'.
  destruct (write_atom_cases self (call_now c) (call_index c) (call_data c)
              (call_schema c) Hwf) as [E|[E|[E|[E|(Hj & _ & E)]]]];
    fold (do_call self c) in E; rewrite E in *; cbn [snd] in *.
  - now apply IH.
  - now apply IH.
  - now apply IH.
  - now apply IH.
  - apply orb_false_iff in Hw. destruct Hw as [Hne Hw].
    apply Z.eqb_neq in Hne.
    rewrite IH by assumption. cbn [with_map PhoenixZPA.map].
    now apply region_after_other_slot.
Qed.

End Unwritten.
(** ** Scores of the shortest payloads *)

Section ShortPayloads.

Lemma score_one (a : byte) :
  PhoenixZPA._calculate_h_score [a] = PyFloat.literal 99 2.
Proof. vm_compute. reflexivity. Qed.

Lemma distinct_two (a b : byte) :
  distinct [a; b] = 1%nat \/ distinct [a; b] = 2%nat.
Proof.
  unfold distinct. cbn [nodup].
  destruct (in_dec Byte.byte_eq_dec a [b]); [left|right]; reflexivity.
Qed.

Lemma score_two (a b : byte) :
  PhoenixZPA._calculate_h_score [a; b] = PyFloat.literal 99 2
  \/ PhoenixZPA._calculate_h_score [a; b]
     = PyFloat.mul (PyFloat.int_true_div 1 2) PHI.
Proof.
  unfold PhoenixZPA._calculate_h_score.
  destruct (distinct_two a b) as [E|E]; rewrite E.
  - right. vm_compute. reflexivity.
  - left. vm_compute. reflexivity.
Qed.

End ShortPayloads.

(** ** Rounding is within one unit of the last place *)

Section RoundingNear.

Lemma iter_shr_1_floor (p : positive) (x : shr_record) :
  0 <= shr_m x ->
  shr_m x < (shr_m (iter_pos shr_1 p x) + 1) * 2 ^ Zpos p.
Proof.
  assert (H1 : forall y, 0 <= shr_m y -> shr_m y < (shr_m (shr_1 y) + 1) * 2).
  { intros [m r s] Hy. destruct m as [|q|q]; simpl in *; try lia.
    destruct q; simpl; lia. }
  revert x. induction p as [p IH|p IH|]; intros x Hx; cbn [iter_pos].
  - destruct (shr_1_half x Hx) as [A0 _]. pose proof (H1 x Hx) as A1.
    destruct (iter_shr_1_div p _ A0) as [B0 _]. pose proof (IH _ A0) as B1.
    pose proof (IH _ B0) as C1.
    replace (Zpos p~1) with (Zpos p + Zpos p + 1) by lia.
    rewrite !Z.pow_add_r, Z.pow_1_r by lia.
    assert (0 < 2 ^ Zpos p) by (apply Z.pow_pos_nonneg; lia). nia.
  - destruct (iter_shr_1_div p _ Hx) as [B0 _]. pose proof (IH _ Hx) as B1.
    pose proof (IH _ B0) as C1.
    replace (Zpos p~0) with (Zpos p + Zpos p) by lia.
    rewrite !Z.pow_add_r by lia.
    assert (0 < 2 ^ Zpos p) by (apply Z.pow_pos_nonneg; lia). nia.
  - rewrite Z.pow_1_r. now apply H1.
Qed.

Lemma shr_fexp_floor (m e : Z) (l : location) :
  0 <= m ->
  let r := shr_fexp PyFloat.prec PyFloat.emax m e l in
  m < (shr_m (fst r) + 1) * 2 ^ (snd r - e).
Proof.
  intros Hm r. subst r. unfold shr_fexp, shr.
  destruct (fexp PyFloat.prec PyFloat.emax (Zdigits2 m + e) - e) as [|p|p];
    cbn [fst snd].
  - rewrite shr_m_of_loc. replace (e - e) with 0 by lia. simpl. lia.
  - pose proof (iter_shr_1_floor p (shr_record_of_loc m l)) as H.
    rewrite shr_m_of_loc in H.
    replace (e + Zpos p - e) with (Zpos p) by lia. now apply H.
  - rewrite shr_m_of_loc. replace (e - e) with 0 by lia. simpl. lia.
Qed.

Lemma Zdigits2_ge (m k : Z) : 0 <= k -> 2 ^ k <= m -> k + 1 <= Zdigits2 m.
Proof.
  intros Hk H. assert (0 < m) by (pose proof (Z.pow_pos_nonneg 2 k); lia).
  destruct m as [|p|p]; try lia. cbn [Zdigits2]. rewrite digits2_pos_log2.
  apply Z.log2_le_pow2 in H; lia.
Qed.

(** The float that [binary_round_aux] builds from a last mantissa and
    exponent. *)
Lemma binary_round_aux_near (m e : Z) (l : location) (K u d : Z) :
  0 < m -> 0 <= e + K -> -1074 <= u -> 0 <= d + K ->
  m * 2 ^ (e + K) < 2 ^ (u + K) ->
  2 ^ (d + K) <= 2 * (m * 2 ^ (e + K)) ->
  exists m3 e3,
    binary_round_aux PyFloat.prec PyFloat.emax false m e l
    = match m3 with
      | Z0 => S754_zero false
      | Zpos p => if e3 <=? PyFloat.emax - PyFloat.prec
                  then S754_finite false p e3 else S754_infinity false
      | Zneg _ => S754_nan
      end
    /\ 0 <= m3
    /\ e <= e3
    /\ fexp PyFloat.prec PyFloat.emax d <= e3
    /\ e3 <= Z.max e (fexp PyFloat.prec PyFloat.emax (u + 1))
    /\ (m3 - 1) * 2 ^ (e3 + K) <= m * 2 ^ (e + K)
    /\ m * 2 ^ (e + K) < (m3 + 1) * 2 ^ (e3 + K).
Proof.
  intros Hm HK Hu Hd Hlt Hge.
  assert (PK : 0 < 2 ^ (e + K)) by (apply Z.pow_pos_nonneg; lia).
  assert (Heu : e < u).
  { destruct (Z_lt_ge_dec e u) as [|Hc]; [assumption|exfalso].
    assert (2 ^ (u + K) <= 2 ^ (e + K)) by (apply Z.pow_le_mono_r; lia). nia. }
  assert (Dle : Zdigits2 m + e <= u).
  { assert (m < 2 ^ (u - e)).
    { apply (below_pow2 m (u - e) (e + K)); try lia.
      replace (u - e + (e + K)) with (u + K) by lia. exact Hlt. }
    pose proof (Zdigits2_le m (u - e) ltac:(lia) ltac:(lia)). lia. }
  assert (Dge : d <= Zdigits2 m + e).
  { destruct (Z_lt_ge_dec (d - 1 - e) 0) as [Hs|Hs].
    - pose proof (Zdigits2_ge m 0 ltac:(lia) ltac:(simpl; lia)). lia.
    - assert (2 ^ (d - 1 - e) <= m).
      { replace (d + K) with (1 + ((d - 1 - e) + (e + K))) in Hge by lia.
        rewrite (Z.pow_add_r 2 1), (Z.pow_add_r 2 (d - 1 - e)), Z.pow_1_r in Hge
          by lia.
        nia. }
      pose proof (Zdigits2_ge m (d - 1 - e) ltac:(lia) ltac:(lia)). lia. }
  unfold binary_round_aux.
  pose proof (shr_fexp_value m e l ltac:(lia)) as S1.
  pose proof (shr_fexp_floor m e l ltac:(lia)) as T1. cbv zeta in S1, T1.
  destruct (shr_fexp PyFloat.prec PyFloat.emax m e l) as [mrs1 e1].
  cbn [fst snd] in S1, T1. destruct S1 as (A0 & A1 & A2).
  pose proof (fexp_monotone _ _ Dle) as F1u. pose proof (fexp_monotone _ _ Dge) as F1d.
  assert (Fu : fexp PyFloat.prec PyFloat.emax u <= Z.max (u - 53) (-1074))
    by (unfold fexp, emin, PyFloat.prec, PyFloat.emax; lia).
  assert (E1 : e <= e1 <= u) by lia.
  set (m2 := round_nearest_even (shr_m mrs1) (loc_of_shr_record mrs1)).
  pose proof (round_nearest_even_bounds (shr_m mrs1) (loc_of_shr_record mrs1)) as R.
  fold m2 in R.
  pose proof (shr_fexp_value m2 e1 loc_Exact ltac:(lia)) as S2.
  pose proof (shr_fexp_floor m2 e1 loc_Exact ltac:(lia)) as T2. cbv zeta in S2, T2.
  destruct (shr_fexp PyFloat.prec PyFloat.emax m2 e1 loc_Exact) as [mrs2 e3].
  cbn [fst snd] in S2, T2. destruct S2 as (B0 & B1 & B2).
  assert (P1 : 0 < 2 ^ (e1 - e)) by (apply Z.pow_pos_nonneg; lia).
  assert (E3 : e1 <= e3) by lia.
  assert (P2 : 0 < 2 ^ (e3 - e1)) by (apply Z.pow_pos_nonneg; lia).
  assert (D2 : Zdigits2 m2 + e1 <= u + 1).
  { assert (m2 < 2 ^ (u + 1 - e1)).
    { apply (below_pow2 m2 (u + 1 - e1) (e1 + K)); try lia.
      replace (u + 1 - e1 + (e1 + K)) with (1 + (u + K)) by lia.
      rewrite (Z.pow_add_r 2 1 (u + K)), Z.pow_1_r by lia.
      replace (e1 + K) with ((e1 - e) + (e + K)) by lia.
      rewrite (Z.pow_add_r 2 (e1 - e) (e + K)) by lia.
      assert (2 ^ (e1 - e) * 2 ^ (e + K) <= 2 ^ (u + K)).
      { rewrite <- Z.pow_add_r by lia. apply Z.pow_le_mono_r; lia. }
      nia. }
    pose proof (Zdigits2_le m2 (u + 1 - e1) ltac:(lia) ltac:(lia)). lia. }
  pose proof (fexp_monotone _ _ D2) as F2.
  assert (Fuu : fexp PyFloat.prec PyFloat.emax u
                <= fexp PyFloat.prec PyFloat.emax (u + 1))
    by (apply fexp_monotone; lia).
  exists (shr_m mrs2), e3.
  split; [reflexivity|]. split; [lia|]. split; [lia|]. split; [lia|].
  split; [lia|].
  replace (e3 + K) with ((e3 - e1) + ((e1 - e) + (e + K))) by lia.
  rewrite (Z.pow_add_r 2 (e3 - e1)), (Z.pow_add_r 2 (e1 - e)) by lia.
  set (q1 := 2 ^ (e1 - e)) in *. set (q2 := 2 ^ (e3 - e1)) in *.
  set (q := 2 ^ (e + K)) in *.
  set (m1 := shr_m mrs1) in *. set (m3 := shr_m mrs2) in *.
  clearbody q1 q2 q m1 m2 m3.
  assert (L1 : m3 * q2 * q1 <= (m1 + 1) * q1) by nia.
  assert (L2 : (m1 + 1) * q1 <= m + q1 * q2) by nia.
  assert (L3 : (m3 - 1) * (q2 * q1) <= m) by nia.
  assert (U1 : m1 + 1 <= (m3 + 1) * q2) by nia.
  assert (U2 : (m1 + 1) * q1 <= (m3 + 1) * q2 * q1) by nia.
  assert (U3 : m < (m3 + 1) * (q2 * q1)) by nia.
  split.
  - replace ((m3 - 1) * (q2 * (q1 * q))) with ((m3 - 1) * (q2 * q1) * q) by ring.
    apply Z.mul_le_mono_nonneg_r; lia.
  - replace ((m3 + 1) * (q2 * (q1 * q))) with ((m3 + 1) * (q2 * q1) * q) by ring.
    apply Z.mul_lt_mono_pos_r; lia.
Qed.

End RoundingNear.

(** ** The value of the field [h_score] *)

Section HScoreRange.

(** An admitted score lies between the threshold and 0.99, and
    [int(score * 10000)] between 6180 and 9900. *)
Lemma h_score_int_range (x : spec_float) :
  PyFloat.ltb (PyFloat.min (PyFloat.literal 99 2) x) H_THRESHOLD = false ->
  exists z,
    PyFloat.to_int
      (PyFloat.mul (PyFloat.min (PyFloat.literal 99 2) x) (PyFloat.of_int 10000))
    = Return z
    /\ 6180 <= z <= 9900.
Proof.
  unfold PyFloat.min, PyFloat.ltb.
  rewrite literal_099, H_THRESHOLD_value, of_int_10000.
  destruct (SFltb x _) eqn:Hlt.
  2:{ intros _. exists 9900. split; [vm_compute; reflexivity | lia]. }
  intros Hge.
  destruct (ltb_below_pos _ _ _ Hge) as [->|[->|(m & e & ->)]];
    [discriminate Hlt | discriminate Hlt |].
  apply ltb_finite_pos in Hlt.
  assert (Hn : ~ (e < -53 \/ (e = -53 /\ Zpos m < 5566755282872294))).
  { intros H. apply ltb_finite_pos in H. congruence. }
  assert (e = -53) by lia. subst e.
  assert (Hm : 5566755282872294 <= Zpos m < 8917127262193582) by lia.
  unfold PyFloat.mul, SFmul. cbv [xorb].
  change (-53 + -39) with (-92).
  set (c := 5497558138880000%positive).
  assert (Hc : Zpos c = 5497558138880000) by reflexivity.
  assert (N1 : 5566755282872294 * 5497558138880000 >= 6180 * 2 ^ 92 + 2 ^ 54)
    by (vm_compute; discriminate).
  assert (N2 : (8917127262193582 - 1) * 5497558138880000 <= 9900 * 2 ^ 92)
    by (vm_compute; discriminate).
  assert (N3 : 8917127262193582 * 5497558138880000 < 2 ^ 106)
    by (vm_compute; reflexivity).
  assert (N4 : 2 ^ 105 <= 2 * (5566755282872294 * 5497558138880000))
    by (vm_compute; discriminate).
  assert (V : 5566755282872294 * 5497558138880000
              <= Zpos (m * c) * 2 ^ (-92 + 92)
              <= (8917127262193582 - 1) * 5497558138880000).
  { rewrite Pos2Z.inj_mul, Hc. change (2 ^ (-92 + 92)) with 1. nia. }
  destruct (binary_round_aux_near (Zpos (m * c)) (-92) loc_Exact 92 14 13)
    as (m3 & e3 & E & H0 & He & Hd & Hu & Vl & Vu);
    try lia.
  rewrite E. clear E.
  assert (He3 : -40 <= e3 <= -38).
  { change (fexp PyFloat.prec PyFloat.emax 13) with (-40) in Hd.
    change (fexp PyFloat.prec PyFloat.emax (14 + 1)) with (-38) in Hu. lia. }
  set (v := Zpos (m * c) * 2 ^ (-92 + 92)) in *. clearbody v.
  set (s := 2 ^ (e3 + 92)) in *.
  assert (Hs : 0 < s) by (apply Z.pow_pos_nonneg; lia).
  assert (Hs54 : s <= 2 ^ 54) by (apply Z.pow_le_mono_r; lia).
  set (t := 2 ^ (- e3)).
  assert (Ht : 0 < t) by (apply Z.pow_pos_nonneg; lia).
  assert (Hts : 2 ^ 92 = t * s).
  { unfold t, s. rewrite <- Z.pow_add_r by lia. f_equal. lia. }
  assert (Et : t = 2 ^ (- e3)) by reflexivity.
  set (B := 2 ^ 92) in *. clearbody s t B.
  assert (Hlo : 6180 * t < m3).
  { assert ((6180 * t + 1) * s < (m3 + 1) * s) by nia.
    apply Z.mul_lt_mono_pos_r in H; lia. }
  assert (Hhi : m3 <= 9900 * t + 1).
  { assert ((m3 - 1) * s <= 9900 * t * s) by nia.
    apply Z.mul_le_mono_pos_r in H; lia. }
  destruct m3 as [|p|p]; try lia.
  assert (Hle : (e3 <=? PyFloat.emax - PyFloat.prec) = true)
    by (apply Z.leb_le; unfold PyFloat.emax, PyFloat.prec; lia).
  rewrite Hle. cbn [PyFloat.to_int].
  destruct e3 as [|q|q]; try lia.
  eexists. split; [reflexivity|].
  rewrite Z.shiftr_div_pow2 by lia.
  change (- Zneg q) with (Zpos q) in Et. rewrite <- Et.
  split.
  - apply Z.div_le_lower_bound; lia.
  - apply Z.lt_succ_r. apply Z.div_lt_upper_bound; nia.
Qed.

End HScoreRange.

(** ** Payloads with many distinct bytes are admitted *)

Section HighRatio.

Lemma distinct_le_length (data : list byte) : (distinct data <= length data)%nat.
Proof.
  unfold distinct. apply NoDup_incl_length; [apply NoDup_nodup|].
  intros x Hx. now apply nodup_In in Hx.
Qed.

Lemma int_true_div_high (d n : positive) :
  Zpos d <= Zpos n -> Zpos n <= 2 * Zpos d ->
  exists m e,
    PyFloat.int_true_div d n = S754_finite false m e
    /\ -53 <= e <= -51
    /\ 2 ^ 53 < (Zpos m + 1) * 2 ^ (e + 54)
    /\ (Zpos m - 1) * 2 ^ (e + 54) <= 2 ^ 54.
Proof.
  intros Hdn Hnd.
  unfold PyFloat.int_true_div, PyFloat.div, SFdiv, SFdiv_core_binary.
  cbn [xorb Zdigits2].
  pose proof (digits2_pos_mono d n Hdn) as Hd1.
  assert (Hd2 : Zpos (digits2_pos n) <= Zpos (digits2_pos d) + 1).
  { pose proof (digits2_pos_mono n (d~0) ltac:(lia)) as H. cbn [digits2_pos] in H. lia. }
  set (dd := Zpos (digits2_pos d)) in *. set (dn := Zpos (digits2_pos n)) in *.
  set (e' := Z.min (fexp PyFloat.prec PyFloat.emax (dd + 0 - (dn + 0))) (0 - 0)).
  assert (He' : -54 <= e' <= -53).
  { unfold e', fexp, emin, PyFloat.prec, PyFloat.emax. lia. }
  clearbody e'.
  destruct (0 - 0 - e') as [|s|s] eqn:Es; try lia.
  rewrite Z.shiftl_mul_pow2 by lia.
  destruct (Z.div_eucl (Zpos d * 2 ^ Zpos s) (Zpos n)) as [q r] eqn:Eq.
  assert (Hq : q = Zpos d * 2 ^ Zpos s / Zpos n) by (unfold Z.div; now rewrite Eq).
  assert (Hs : Zpos s = - e') by lia.
  assert (Ps : 2 ^ Zpos s = 2 * 2 ^ (Zpos s - 1)).
  { rewrite <- (Z.pow_succ_r 2) by lia. f_equal. lia. }
  assert (P : 0 < 2 ^ (Zpos s - 1)) by (apply Z.pow_pos_nonneg; lia).
  assert (Hq1 : 2 ^ (Zpos s - 1) <= q).
  { subst q. apply Z.div_le_lower_bound; [lia|]. nia. }
  assert (Hq2 : q <= 2 ^ Zpos s).
  { subst q. apply Z.div_le_upper_bound; [lia|]. nia. }
  assert (Hsc : 2 ^ Zpos s * 2 ^ (e' + 54) = 2 ^ 54).
  { rewrite <- Z.pow_add_r by lia. f_equal. lia. }
  assert (Pe : 0 < 2 ^ (e' + 54)) by (apply Z.pow_pos_nonneg; lia).
  destruct (binary_round_aux_near q e' (new_location (Zpos n) r) 54 1 0)
    as (m3 & e3 & E & H0 & He & Hd & Hu & Vl & Vu); try lia.
  { change (2 ^ (1 + 54)) with (2 * 2 ^ 54). nia. }
  { change (0 + 54) with 54. nia. }
  change (fexp PyFloat.prec PyFloat.emax 0) with (-53) in Hd.
  change (fexp PyFloat.prec PyFloat.emax (1 + 1)) with (-51) in Hu.
  assert (He3 : -53 <= e3 <= -51) by lia.
  assert (P3 : 0 < 2 ^ (e3 + 54)) by (apply Z.pow_pos_nonneg; lia).
  assert (P3' : 2 ^ (e3 + 54) <= 2 ^ 3) by (apply Z.pow_le_mono_r; lia).
  assert (Hv : 2 ^ 53 <= q * 2 ^ (e' + 54)).
  { change (2 ^ 54) with (2 * 2 ^ 53) in Hsc. nia. }
  destruct m3 as [|p|p]; try lia.
  assert (Hle : (e3 <=? PyFloat.emax - PyFloat.prec) = true)
    by (apply Z.leb_le; unfold PyFloat.emax, PyFloat.prec; lia).
  rewrite Hle in E. exists p, e3. split; [exact E|]. split; [lia|].
  split; [lia|nia].
Qed.

Lemma mul_PHI_high (m : positive) (e : Z) :
  -53 <= e <= -51 ->
  2 ^ 53 < (Zpos m + 1) * 2 ^ (e + 54) ->
  (Zpos m - 1) * 2 ^ (e + 54) <= 2 ^ 54 ->
  PyFloat.ltb (PyFloat.min (PyFloat.literal 99 2)
                           (PyFloat.mul (S754_finite false m e) PHI))
              H_THRESHOLD = false.
Proof.
  intros He Hlo Hhi.
  unfold PyFloat.min.
  destruct (PyFloat.ltb (PyFloat.mul (S754_finite false m e) PHI)
                        (PyFloat.literal 99 2)) eqn:Hlt;
    [|vm_compute; reflexivity].
  clear Hlt. rewrite PHI_value, H_THRESHOLD_value.
  unfold PyFloat.mul, PyFloat.ltb, SFmul. cbn [xorb].
  set (c := 7286977268807297%positive).
  assert (Hc : Zpos c = 7286977268807297) by reflexivity.
  assert (N1 : (2 ^ 53 - 8) * 7286977268807297 >= (5566755282872294 + 1) * 2 ^ 53)
    by (vm_compute; discriminate).
  assert (N2 : (2 ^ 54 + 8) * 7286977268807297 < 2 ^ 107) by (vm_compute; reflexivity).
  assert (N3 : 2 ^ 106 <= 2 * ((2 ^ 53 - 8) * 7286977268807297))
    by (vm_compute; discriminate).
  assert (P : 0 < 2 ^ (e + 54)) by (apply Z.pow_pos_nonneg; lia).
  assert (P8 : 2 ^ (e + 54) <= 8).
  { change 8 with (2 ^ 3). apply Z.pow_le_mono_r; lia. }
  assert (V : (2 ^ 53 - 8) * 7286977268807297
              <= Zpos (m * c) * 2 ^ (e + -52 + 106)
              <= (2 ^ 54 + 8) * 7286977268807297).
  { rewrite Pos2Z.inj_mul, Hc. replace (e + -52 + 106) with (e + 54) by lia.
    set (a := 2 ^ 53) in *. set (b := 2 ^ 54) in *. set (t := 2 ^ (e + 54)) in *.
    clearbody a b t. nia. }
  destruct (binary_round_aux_near (Zpos (m * c)) (e + -52) loc_Exact 106 1 0)
    as (m3 & e3 & E & H0 & He3 & Hd & Hu & Vl & Vu); try lia.
  rewrite E. clear E.
  change (fexp PyFloat.prec PyFloat.emax 0) with (-53) in Hd.
  change (fexp PyFloat.prec PyFloat.emax (1 + 1)) with (-51) in Hu.
  assert (He3' : -53 <= e3 <= -51) by lia.
  set (v := Zpos (m * c) * 2 ^ (e + -52 + 106)) in *. clearbody v.
  assert (P3 : 2 ^ 53 <= 2 ^ (e3 + 106)) by (apply Z.pow_le_mono_r; lia).
  destruct m3 as [|p|p]; try lia.
  { exfalso. change (0 + 1) with 1 in Vu. rewrite Z.mul_1_l in Vu.
    set (t := 2 ^ (e3 + 106)) in *.
    assert (t <= 2 ^ 55) by (apply Z.pow_le_mono_r; lia).
    assert (2 ^ 55 < (2 ^ 53 - 8) * 7286977268807297) by (vm_compute; reflexivity).
    lia. }
  assert (Hle : (e3 <=? PyFloat.emax - PyFloat.prec) = true)
    by (apply Z.leb_le; unfold PyFloat.emax, PyFloat.prec; lia).
  rewrite Hle.
  destruct (SFltb (S754_finite false p e3)
                  (S754_finite false 5566755282872294 (-53))) eqn:Hc'; [|reflexivity].
  exfalso. apply ltb_finite_pos in Hc'. destruct Hc' as [Hc'|[-> Hc']]; [lia|].
  change (2 ^ (-53 + 106)) with (2 ^ 53) in *.
  set (a := 2 ^ 53) in *. assert (0 < a) by (vm_compute; reflexivity).
  clearbody a. nia.
Qed.

(** A payload in which at least every second byte is new is admitted. *)
Lemma high_ratio_admitted (data : list byte) :
  data <> [] -> (length data <= 2 * distinct data)%nat ->
  PyFloat.ltb (PhoenixZPA._calculate_h_score data) H_THRESHOLD = false.
Proof.
  destruct data as [|b data]; [congruence|]. intros _ H.
  pose proof (distinct_pos b data) as Hd.
  pose proof (distinct_le_length (b :: data)) as Hl.
  unfold PhoenixZPA._calculate_h_score.
  destruct (int_true_div_high (Pos.of_nat (distinct (b :: data)))
                              (Pos.of_nat (length (b :: data))))
    as (m & e & E & He & Hlo & Hhi).
  - rewrite !Zpos_of_nat by (simpl; lia). lia.
  - rewrite !Zpos_of_nat by (simpl; lia). lia.
  - rewrite E. now apply mul_PHI_high.
Qed.

End HighRatio.


(** ** All the fields of a written record *)

Section RecordFields.

Ltac field_side :=
  rewrite ?atom_image_length by assumption;
  cbv [field_offset field_size offset_in type_in _fields_ field_eqb sizeof];
  simpl; lia.

Lemma stored_int (m : region) (off : Z) (img : list byte) (f : field) :
  0 <= off -> off <= Z.of_nat (length m) ->
  (Z.to_nat (field_offset f) + field_size f <= length img)%nat ->
  get_int (store m off img) off f
  = le_decode (firstn (field_size f) (skipn (Z.to_nat (field_offset f)) img)).
Proof.
  intros H0 H1 H2. unfold get_int.
  rewrite load_store_inside; [reflexivity|lia|lia| |lia].
  unfold field_offset. lia.
Qed.

Lemma stored_pi_index (m : region) off old now data s h :
  length old = 32%nat -> 0 <= off -> off <= Z.of_nat (length m) ->
  get_int (store m off (atom_image old now data s h)) off pi_index
  = now mod 2 ^ 64.
Proof.
  intros Ho H0 H1. rewrite stored_int by field_side.
  change (firstn (field_size pi_index)
            (skipn (Z.to_nat (field_offset pi_index))
                   (atom_image old now data s h)))
    with (le_encode 8 now).
  apply le_decode_encode.
Qed.

Lemma stored_geo_hash (m : region) off old now data s h :
  length old = 32%nat -> 0 <= off -> off <= Z.of_nat (length m) ->
  get_int (store m off (atom_image old now data s h)) off geo_hash = 0xCAFEBABE.
Proof.
  intros Ho H0 H1. rewrite stored_int by field_side.
  reflexivity.
Qed.

Lemma stored_h_score (m : region) off old now data s h :
  length old = 32%nat -> 0 <= off -> off <= Z.of_nat (length m) ->
  get_int (store m off (atom_image old now data s h)) off h_score = h mod 2 ^ 16.
Proof.
  intros Ho H0 H1. rewrite stored_int by field_side.
  change (firstn (field_size h_score)
            (skipn (Z.to_nat (field_offset h_score))
                   (atom_image old now data s h)))
    with (le_encode 2 h).
  apply le_decode_encode.
Qed.

Lemma stored_flags (m : region) off old now data s h :
  length old = 32%nat -> 0 <= off -> off <= Z.of_nat (length m) ->
  get_int (store m off (atom_image old now data s h)) off flags = 42.
Proof.
  intros Ho H0 H1. rewrite stored_int by field_side.
  reflexivity.
Qed.

Lemma stored_strands (m : region) off old now data s h :
  length old = 32%nat -> 0 <= off -> off <= Z.of_nat (length m) ->
  get_int (store m off (atom_image old now data s h)) off strands = 0xDEADBEEF.
Proof.
  intros Ho H0 H1. rewrite stored_int by field_side.
  change (Z.to_nat (field_offset strands)) with 56%nat.
  change (field_size strands) with 8%nat.
  set (pre := le_encode 2 MAGIC_SIG ++ le_encode 8 now ++ le_encode 8 0xCAFEBABE
              ++ le_encode 2 s ++ le_encode 2 h ++ le_encode 2 42
              ++ payload_after old data).
  assert (E : atom_image old now data s h = pre ++ le_encode 8 0xDEADBEEF).
  { unfold atom_image, pre. now rewrite <- !app_assoc. }
  assert (L : length pre = 56%nat).
  { unfold pre. rewrite !length_app, !le_encode_length, payload_after_length
      by assumption. reflexivity. }
  rewrite E, skipn_app, L, Nat.sub_diag, skipn_all2 by lia.
  reflexivity.
Qed.

Lemma h_field_range (data : list byte) :
  PyFloat.ltb (PhoenixZPA._calculate_h_score data) H_THRESHOLD = false ->
  6180 <= h_field data <= 9900.
Proof.
  intros Hs. unfold h_field.
  assert (Hint : exists z,
             PyFloat.to_int (PyFloat.mul (PhoenixZPA._calculate_h_score data)
                                         (PyFloat.of_int 10000)) = Return z
             /\ 6180 <= z <= 9900)
    by exact (h_score_int_range _ Hs).
  destruct Hint as (z & -> & Hz). exact Hz.
Qed.

(** After an admitted write, the slot reads as the record of the call. *)
Lemma region_after_holds self now i data s :
  wf self -> 0 <= i < PhoenixZPA.atom_capacity self ->
  PyFloat.ltb (PhoenixZPA._calculate_h_score data) H_THRESHOLD = false ->
  holds_record (region_after self now i data s) i (mk_call now i data s).
Proof.
  intros Hwf Hi Hs.
  pose proof (slot_in_region self i Hwf Hi) as Hin.
  pose proof (old_payload_length self i Hwf Hi) as Ho.
  pose proof (h_field_range data Hs) as Hr.
  assert (H0 : 0 <= i * ATOM_SIZE) by (unfold ATOM_SIZE; lia).
  assert (H1 : i * ATOM_SIZE <= Z.of_nat (length (PhoenixZPA.map self)))
    by (unfold ATOM_SIZE in *; lia).
  unfold holds_record, region_after.
  cbn [call_now call_index call_data call_schema].
  split; [now apply stored_magic|].
  split; [now apply stored_pi_index|].
  split; [now apply stored_geo_hash|].
  split; [now apply stored_schema|].
  split; [rewrite stored_h_score by assumption; apply Z.mod_small; lia|].
  split; [now apply stored_flags|].
  split; [now apply stored_strands | now apply stored_chars].
Qed.

End RecordFields.
(** ** Further facts about the score *)

Section ScoreFacts.

Lemma byte_of_to_Z (b : byte) : byte_of_Z (byte_to_Z b) = b.
Proof.
  apply byte_to_Z_inj. rewrite byte_to_Z_of_Z.
  apply Z.mod_small. apply byte_to_Z_range.
Qed.

(** There are 256 bytes. *)
Lemma distinct_le_256 (data : list byte) : (distinct data <= 256)%nat.
Proof.
  unfold distinct.
  set (all := map (fun n => byte_of_Z (Z.of_nat n)) (seq 0 256)).
  assert (L : length all = 256%nat)
    by (unfold all; rewrite length_map, length_seq; reflexivity).
  rewrite <- L. clear L.
  apply NoDup_incl_length; [apply NoDup_nodup|].
  intros b _. unfold all. apply in_map_iff. exists (Z.to_nat (byte_to_Z b)).
  pose proof (byte_to_Z_range b). split.
  - rewrite Z2Nat.id by lia. apply byte_of_to_Z.
  - apply in_seq. lia.
Qed.

Lemma distinct_permutation (l l' : list byte) :
  Permutation l l' -> distinct l = distinct l'.
Proof.
  intros P. unfold distinct. apply Nat.le_antisymm.
  - apply NoDup_incl_length; [apply NoDup_nodup|].
    intros x Hx. apply nodup_In. apply nodup_In in Hx.
    now apply (Permutation_in _ P).
  - apply NoDup_incl_length; [apply NoDup_nodup|].
    intros x Hx. apply nodup_In. apply nodup_In in Hx.
    now apply (Permutation_in _ (Permutation_sym P)).
Qed.

Lemma distinct_NoDup (l : list byte) : NoDup l -> distinct l = length l.
Proof. intros H. unfold distinct. now rewrite nodup_fixed_point. Qed.

(** The sign of what [binary_round_aux] returns is the sign it is given. *)
Lemma binary_round_aux_sign (m e : Z) (l : location) :
  match binary_round_aux PyFloat.prec PyFloat.emax false m e l with
  | S754_zero s | S754_finite s _ _ | S754_infinity s => s = false
  | S754_nan => True
  end.
Proof.
  unfold binary_round_aux.
  destruct (shr_fexp PyFloat.prec PyFloat.emax m e l) as [mrs' e'].
  destruct (shr_fexp _ _ _ e' loc_Exact) as [mrs'' e''].
  destruct (shr_m mrs''); [reflexivity| |exact I].
  destruct (e'' <=? _); reflexivity.
Qed.

Lemma score_cases (data : list byte) :
  PhoenixZPA._calculate_h_score data = PyFloat.literal 99 2
  \/ PhoenixZPA._calculate_h_score data = S754_zero false
  \/ exists m e, PhoenixZPA._calculate_h_score data = S754_finite false m e
                 /\ SFltb (S754_finite false m e) (PyFloat.literal 99 2) = true.
Proof.
  unfold PhoenixZPA._calculate_h_score, PyFloat.min.
  set (x := PyFloat.mul _ PHI).
  assert (Hx : match x with
               | S754_zero s | S754_finite s _ _ | S754_infinity s => s = false
               | S754_nan => True
               end).
  { unfold x. rewrite PHI_value. destruct data as [|b data].
    - reflexivity.
    - unfold PyFloat.int_true_div, PyFloat.div, SFdiv.
      destruct (SFdiv_core_binary _ _ _ _ _ _) as [[mz ez] lz]. cbn [xorb].
      pose proof (binary_round_aux_sign mz ez lz) as Hs.
      destruct (binary_round_aux _ _ false mz ez lz) as [s|s| |s m e];
        try subst s; try exact I; try reflexivity.
      unfold PyFloat.mul, SFmul. cbn [xorb]. apply binary_round_aux_sign. }
  clearbody x.
  destruct (PyFloat.ltb x (PyFloat.literal 99 2)) eqn:Hlt; [|now left].
  right. destruct x as [s|s| |s m e]; try subst s.
  - now left.
  - rewrite literal_099 in Hlt. discriminate.
  - discriminate.
  - right. exists m, e. split; [reflexivity | exact Hlt].
Qed.

End ScoreFacts.

(** ** Bytes of a stored image, and stores to different slots *)

Section StoreAlgebra.

Lemma nth_error_store_inside (m : region) (off : Z) (bs : list byte) (k : nat) :
  0 <= off -> off <= Z.of_nat (length m) ->
  off <= Z.of_nat k < off + Z.of_nat (length bs) ->
  nth_error (store m off bs) k = nth_error bs (k - Z.to_nat off).
Proof.
  intros H0 H1 Hk. unfold store.
  assert (Ha : length (firstn (Z.to_nat off) m) = Z.to_nat off)
    by (rewrite length_firstn; lia).
  rewrite nth_error_app2 by lia. rewrite Ha.
  apply nth_error_app1. lia.
Qed.

Lemma store_store_same (m : region) (off : Z) (a b : list byte) :
  0 <= off -> off + Z.of_nat (length a) <= Z.of_nat (length m) ->
  length a = length b ->
  store (store m off a) off b = store m off b.
Proof.
  intros H0 H1 Hl. apply nth_error_ext. intros k.
  assert (La : length (store m off a) = length m) by (apply store_length; lia).
  destruct (Z_lt_ge_dec (Z.of_nat k) off) as [Hk|Hk].
  - rewrite !nth_error_store_outside by lia. reflexivity.
  - destruct (Z_lt_ge_dec (Z.of_nat k) (off + Z.of_nat (length b))) as [Hk'|Hk'].
    + rewrite !nth_error_store_inside by lia. reflexivity.
    + rewrite !nth_error_store_outside by lia. reflexivity.
Qed.

Lemma store_store_comm (m : region) (o1 o2 : Z) (a b : list byte) :
  0 <= o1 -> o1 + Z.of_nat (length a) <= Z.of_nat (length m) ->
  0 <= o2 -> o2 + Z.of_nat (length b) <= Z.of_nat (length m) ->
  o1 + Z.of_nat (length a) <= o2 \/ o2 + Z.of_nat (length b) <= o1 ->
  store (store m o1 a) o2 b = store (store m o2 b) o1 a.
Proof.
  intros H1 L1 H2 L2 Hd. apply nth_error_ext. intros k.
  assert (La : length (store m o1 a) = length m) by (apply store_length; lia).
  assert (Lb : length (store m o2 b) = length m) by (apply store_length; lia).
  destruct (Z_lt_ge_dec (Z.of_nat k) o1) as [Ka|Ka];
    [|destruct (Z_lt_ge_dec (Z.of_nat k) (o1 + Z.of_nat (length a))) as [Ka'|Ka']];
    (destruct (Z_lt_ge_dec (Z.of_nat k) o2) as [Kb|Kb];
     [|destruct (Z_lt_ge_dec (Z.of_nat k) (o2 + Z.of_nat (length b))) as [Kb'|Kb']]);
    try lia;
    repeat first
           [ rewrite nth_error_store_outside by lia
           | rewrite nth_error_store_inside by lia ];
    reflexivity.
Qed.

End StoreAlgebra.

(** ** The layout of a packed structure *)

Section Layout.

Lemma field_eqb_eq (f g : field) : field_eqb f g = true <-> f = g.
Proof. destruct f, g; simpl; split; intros H; congruence. Qed.

Lemma offset_in_bound (fs : list (field * ctype)) (f : field) :
  In f (map fst fs) ->
  (offset_in fs f + sizeof (type_in fs f) <= total_size fs)%nat.
Proof.
  induction fs as [|[g t] fs IH]; [contradiction|].
  cbn [map fst In offset_in type_in total_size fold_right snd].
  intros Hin. destruct (field_eqb f g) eqn:E.
  - lia.
  - destruct Hin as [Hg|Hin].
    + subst g. assert (field_eqb f f = true) by now apply field_eqb_eq. congruence.
    + specialize (IH Hin). unfold total_size in IH. lia.
Qed.

Lemma offset_in_disjoint (fs : list (field * ctype)) (f g : field) :
  NoDup (map fst fs) -> In f (map fst fs) -> In g (map fst fs) -> f <> g ->
  (offset_in fs f + sizeof (type_in fs f) <= offset_in fs g)%nat
  \/ (offset_in fs g + sizeof (type_in fs g) <= offset_in fs f)%nat.
Proof.
  induction fs as [|[h t] fs IH]; [contradiction|].
  cbn [map fst In offset_in type_in].
  intros Hnd Hf Hg Hne. inversion Hnd as [|? ? Hnot Hnd']; subst.
  destruct (field_eqb f h) eqn:Ef; destruct (field_eqb g h) eqn:Eg.
  - apply field_eqb_eq in Ef, Eg. congruence.
  - left. lia.
  - right. lia.
  - assert (Hf' : In f (map fst fs)).
    { destruct Hf as [Hf|Hf]; [|exact Hf]. subst h.
      assert (field_eqb f f = true) by now apply field_eqb_eq. congruence. }
    assert (Hg' : In g (map fst fs)).
    { destruct Hg as [Hg|Hg]; [|exact Hg]. subst h.
      assert (field_eqb g g = true) by now apply field_eqb_eq. congruence. }
    destruct (IH Hnd' Hf' Hg' Hne); [left|right]; lia.
Qed.

Lemma fields_NoDup : NoDup (map fst _fields_).
Proof.
  cbn [map fst _fields_].
  repeat (constructor; [cbn [In]; intuition discriminate|]). constructor.
Qed.

Lemma fields_complete (f : field) : In f (map fst _fields_).
Proof. destruct f; cbn [map fst _fields_ In]; tauto. Qed.

End Layout.

(** ** The signature of a slot *)

Section Signature.

Lemma le_decode_two (a b : byte) :
  le_decode [a; b] = MAGIC_SIG <-> a = xf0 /\ b = x01.
Proof.
  cbn [le_decode]. unfold MAGIC_SIG.
  pose proof (byte_to_Z_range a). pose proof (byte_to_Z_range b).
  split.
  - intros H1. assert (byte_to_Z a = 240 /\ byte_to_Z b = 1) as [Ea Eb] by lia.
    split; apply byte_to_Z_inj; [rewrite Ea|rewrite Eb]; reflexivity.
  - intros [-> ->]. reflexivity.
Qed.

Lemma load_two (m : region) (off : Z) :
  0 <= off -> off + 2 <= Z.of_nat (length m) ->
  exists a b, load m off 2 = [a; b].
Proof.
  intros H0 H1. unfold load.
  assert (L : length (firstn 2 (skipn (Z.to_nat off) m)) = 2%nat)
    by (rewrite length_firstn, length_skipn; lia).
  destruct (firstn 2 (skipn (Z.to_nat off) m)) as [|a [|b [|c r]]];
    simpl in L; try lia. eauto.
Qed.

End Signature.


(** ** Sequences of calls *)

Section Sequences.

Lemma write_atom_length self now i data s :
  wf self ->
  length (PhoenixZPA.map (snd (PhoenixZPA.write_atom self now i data s)))
  = length (PhoenixZPA.map self).
Proof.
  intros Hwf.
  destruct (write_atom_cases self now i data s Hwf)
    as [E|[E|[E|[E|(Hi & _ & E)]]]];
    rewrite E; cbn [snd]; try reflexivity.
  cbn [with_map PhoenixZPA.map]. now apply region_after_length.
Qed.

Lemma replay_fields (cs : list call) (self : PhoenixZPA.t) :
  wf self ->
  PhoenixZPA.size_bytes (replay self cs) = PhoenixZPA.size_bytes self
  /\ PhoenixZPA.atom_capacity (replay self cs) = PhoenixZPA.atom_capacity self
  /\ length (PhoenixZPA.map (replay self cs)) = length (PhoenixZPA.map self).
Proof.
  revert self. induction cs as [|c cs IH]; intros self Hwf; cbn [replay].
  - auto.
  - destruct (IH (snd (do_call self c)) (write_atom_wf _ _ _ _ _ Hwf))
      as (A & B & C).
    destruct (write_atom_capacity self (call_now c) (call_index c) (call_data c)
                (call_schema c)) as [D E].
    rewrite A, B, C. unfold do_call. rewrite D, E.
    split; [reflexivity|]. split; [reflexivity|]. now apply write_atom_length.
Qed.

Lemma last_write_some (cs : list call) (self : PhoenixZPA.t) (i : Z) (c : call) :
  last_write self i cs (Some c) <> None.
Proof.
  revert self c. induction cs as [|c' cs IH]; intros self c; cbn [last_write].
  - discriminate.
  - destruct (do_call self c') as [[[|]|e] self']; try apply IH.
    destruct (call_index c' =? i); apply IH.
Qed.

Lemma load_within (m : region) (off k : Z) (n len : nat) :
  0 <= off -> 0 <= k -> (Z.to_nat k + n <= len)%nat ->
  load m (off + k) n = firstn n (skipn (Z.to_nat k) (load m off len)).
Proof.
  intros H0 Hk Hn. unfold load.
  replace (Z.to_nat (off + k)) with (Z.to_nat k + Z.to_nat off)%nat by lia.
  rewrite <- skipn_skipn.
  set (l := skipn (Z.to_nat off) m).
  rewrite skipn_firstn_comm, firstn_firstn.
  f_equal. lia.
Qed.

(** A field of a record is read from the 64 bytes of its slot. *)
Lemma raw_field_of_slot (m : region) (off : Z) (f : field) :
  0 <= off ->
  raw_field m off f
  = firstn (field_size f) (skipn (Z.to_nat (field_offset f)) (load m off 64)).
Proof.
  intros H0. unfold raw_field.
  apply load_within; [assumption | destruct f; vm_compute; congruence
                      | destruct f; vm_compute; lia].
Qed.

Lemma get_int_of_slot (m : region) (off : Z) (f : field) :
  0 <= off ->
  get_int m off f
  = le_decode (firstn (field_size f)
                      (skipn (Z.to_nat (field_offset f)) (load m off 64))).
Proof.
  intros H0. unfold get_int.
  fold (raw_field m off f). now rewrite raw_field_of_slot.
Qed.

Lemma get_chars_of_slot (m : region) (off : Z) (f : field) :
  0 <= off ->
  get_chars m off f
  = c_string (firstn (field_size f)
                     (skipn (Z.to_nat (field_offset f)) (load m off 64))).
Proof.
  intros H0. unfold get_chars.
  fold (raw_field m off f). now rewrite raw_field_of_slot.
Qed.

Lemma holds_record_ext (m m' : region) (i : Z) (c : call) :
  0 <= i ->
  load m' (i * ATOM_SIZE) 64 = load m (i * ATOM_SIZE) 64 ->
  holds_record m i c -> holds_record m' i c.
Proof.
  intros Hi E. unfold holds_record.
  assert (H0 : 0 <= i * ATOM_SIZE) by (unfold ATOM_SIZE; lia).
  rewrite !(get_int_of_slot m'), !(get_int_of_slot m),
    (get_chars_of_slot m'), (get_chars_of_slot m), E by assumption.
  trivial.
Qed.

(** The slot reads as the record of the last call that wrote it. *)
Lemma replay_last_write (cs : list call) (self : PhoenixZPA.t) (i : Z)
      (acc : option call) :
  wf self -> 0 <= i ->
  (forall c, acc = Some c ->
             i < PhoenixZPA.atom_capacity self
             /\ holds_record (PhoenixZPA.map self) i c) ->
  match last_write self i cs acc with
  | Some c => i < PhoenixZPA.atom_capacity self
              /\ holds_record (PhoenixZPA.map (replay self cs)) i c
  | None => load (PhoenixZPA.map (replay self cs)) (i * ATOM_SIZE) 64
            = load (PhoenixZPA.map self) (i * ATOM_SIZE) 64
  end.
Proof.
  revert self acc. induction cs as [|c cs IH]; intros self acc Hwf Hi Hacc;
    cbn [replay last_write].
  - destruct acc as [c|]; [now apply Hacc | reflexivity].
  - pose proof (write_atom_wf self (call_now c) (call_index c) (call_data c)
                  (call_schema c) Hwf) as Hwf'.
    fold (do_call self c) in Hwf'.
    destruct (write_atom_cases self (call_now c) (call_index c) (call_data c)
                (call_schema c) Hwf) as [E|[E|[E|[E|(Hj & Hs & E)]]]];
      fold (do_call self c) in E; rewrite E in *; cbn [snd] in *.
    + now apply IH.
    + now apply IH.
    + now apply IH.
    + now apply IH.
    + set (self' := with_map self _) in *.
      assert (Hcap : PhoenixZPA.atom_capacity self'
                     = PhoenixZPA.atom_capacity self) by reflexivity.
      assert (Hother : call_index c <> i ->
                       load (PhoenixZPA.map self') (i * ATOM_SIZE) 64
                       = load (PhoenixZPA.map self) (i * ATOM_SIZE) 64).
      { intros Hne. unfold self'. cbn [with_map PhoenixZPA.map].
        now apply region_after_other_slot. }
      destruct (Z.eqb_spec (call_index c) i) as [Heq|Hne].
      * specialize (IH self' (Some c) Hwf' Hi).
        pose proof (last_write_some cs self' i c) as Hsome.
        destruct (last_write self' i cs (Some c)); [|congruence].
        rewrite <- Hcap. apply IH. intros c' [= <-].
        split; [rewrite Hcap; lia|].
        unfold self'. cbn [with_map PhoenixZPA.map]. subst i.
        pose proof (region_after_holds self (call_now c) (call_index c)
                      (call_data c) (call_schema c) Hwf Hj Hs) as Hh.
        now destruct c.
      * specialize (IH self' acc Hwf' Hi).
        assert (Hacc' : forall c', acc = Some c' ->
                  i < PhoenixZPA.atom_capacity self'
                  /\ holds_record (PhoenixZPA.map self') i c').
        { intros c' Hc'. destruct (Hacc c' Hc') as [A B].
          split; [exact A|].
          apply (holds_record_ext (PhoenixZPA.map self)); auto. }
        specialize (IH Hacc').
        destruct (last_write self' i cs acc); [exact IH|].
        rewrite IH. now apply Hother.
Qed.

(** The payload field of a slot after a sequence of calls. *)
Lemma replay_payload_trace (cs : list call) (self : PhoenixZPA.t) (i : Z) :
  wf self -> 0 <= i ->
  raw_field (PhoenixZPA.map (replay self cs)) (i * ATOM_SIZE) payload
  = payload_trace self i cs
                  (raw_field (PhoenixZPA.map self) (i * ATOM_SIZE) payload).
Proof.
  revert self. induction cs as [|c cs IH]; intros self Hwf Hi;
    cbn [replay payload_trace]; [reflexivity|].
  pose proof (write_atom_wf self (call_now c) (call_index c) (call_data c)
                (call_schema c) Hwf) as Hwf'.
  fold (do_call self c) in Hwf'.
  destruct (write_atom_cases self (call_now c) (call_index c) (call_data c)
              (call_schema c) Hwf) as [E|[E|[E|[E|(Hj & Hs & E)]]]];
    fold (do_call self c) in E; rewrite E in *; cbn [snd] in *.
  - now apply IH.
  - now apply IH.
  - now apply IH.
  - now apply IH.
  - rewrite IH by assumption. f_equal. cbn [with_map PhoenixZPA.map].
    assert (H0 : 0 <= i * ATOM_SIZE) by (unfold ATOM_SIZE; lia).
    destruct (Z.eqb_spec (call_index c) i) as [Heq|Hne].
    + subst i. pose proof (slot_in_region self _ Hwf Hj).
      unfold region_after. apply stored_payload;
        [now apply old_payload_length | lia | unfold ATOM_SIZE in *; lia].
    + rewrite !raw_field_of_slot by assumption.
      now rewrite region_after_other_slot.
Qed.

(** Two admitted writes to one slot, one after the other. *)
Lemma overwrite_run (self : PhoenixZPA.t) (now1 now2 i : Z)
      (p1 p2 : list byte) (s1 s2 : Z) :
  wf self -> 0 <= i < PhoenixZPA.atom_capacity self ->
  admissible p1 -> admissible p2 ->
  exists e1 e2,
    PhoenixZPA.write_atom self now1 i p1 s1 = (Return true, e1)
    /\ PhoenixZPA.write_atom e1 now2 i p2 s2 = (Return true, e2)
    /\ PhoenixZPA.read_atom e2 i = Return (Some (i * ATOM_SIZE))
    /\ get_chars (PhoenixZPA.map e2) (i * ATOM_SIZE) payload
       = c_string (firstn 32 p2)
    /\ raw_field (PhoenixZPA.map e2) (i * ATOM_SIZE) payload
       = payload_after
           (payload_after
              (raw_field (PhoenixZPA.map self) (i * ATOM_SIZE) payload) p1)
           p2.
Proof.
  intros Hwf Hi H1 H2.
  pose proof (admitted_wf self now1 i p1 s1 Hwf Hi) as Hwf1.
  eexists _, _.
  split; [now apply admitted_write|].
  split; [now apply (admitted_write _ now2 i p2 s2 Hwf1 Hi)|].
  split; [now apply (admitted_read _ now2 i p2 s2 Hwf1 Hi)|].
  split; [now apply (admitted_chars _ now2 i p2 s2 Hwf1 Hi)|].
  cbn [with_map PhoenixZPA.map].
  rewrite (admitted_payload _ now2 i p2 s2 Hwf1 Hi).
  cbn [with_map PhoenixZPA.map].
  now rewrite (admitted_payload self now1 i p1 s1 Hwf Hi).
Qed.

Lemma write_loop_app (clock : nat -> Z) (zpa : PhoenixZPA.t) (l1 l2 : list nat) :
  write_loop clock zpa (l1 ++ l2)
  = match write_loop clock zpa l1 with
    | (Return _, zpa') => write_loop clock zpa' l2
    | (Raise e, zpa') => (Raise e, zpa')
    end.
Proof.
  revert zpa. induction l1 as [|i l1 IH]; intros zpa; cbn [app write_loop].
  - reflexivity.
  - destruct (PhoenixZPA.write_atom zpa (clock i) (Z.of_nat i) dummy_data 1)
      as [[r|e] zpa']; [apply IH | reflexivity].
Qed.

Lemma admissible_dummy : admissible dummy_data.
Proof. vm_compute. reflexivity. Qed.

(** A payload that fills the field leaves nothing of what was there. *)
Lemma atom_image_full (old old' : list byte) now data s h :
  length old = 32%nat -> length old' = 32%nat ->
  length (c_string (firstn 32 data)) = 32%nat ->
  atom_image old now data s h = atom_image old' now data s h.
Proof.
  intros Ho Ho' Hf. unfold atom_image.
  now rewrite !payload_after_full.
Qed.

Lemma write_loop_run (clock : nat -> Z) (zpa : PhoenixZPA.t) (n : nat) :
  wf zpa -> Z.of_nat n <= PhoenixZPA.atom_capacity zpa ->
  exists zpa',
    write_loop clock zpa (seq 0 n) = (Return tt, zpa')
    /\ wf zpa'
    /\ PhoenixZPA.atom_capacity zpa' = PhoenixZPA.atom_capacity zpa
    /\ length (PhoenixZPA.map zpa') = length (PhoenixZPA.map zpa)
    /\ (forall i : nat, (i < n)%nat ->
          load (PhoenixZPA.map zpa') (Z.of_nat i * ATOM_SIZE) 64
          = atom_image (repeat x00 32) (clock i) dummy_data 1
                       (h_field dummy_data))
    /\ (forall j : Z, Z.of_nat n <= j ->
          load (PhoenixZPA.map zpa') (j * ATOM_SIZE) 64
          = load (PhoenixZPA.map zpa) (j * ATOM_SIZE) 64).
Proof.
  intros Hwf. induction n as [|n IH]; intros Hn.
  - exists zpa. cbn [seq write_loop].
    split; [reflexivity|]. split; [exact Hwf|]. split; [reflexivity|].
    split; [reflexivity|]. split; [intros i Hi; lia | reflexivity].
  - destruct IH as (z1 & E1 & W1 & C1 & L1 & S1 & O1); [lia|].
    assert (Hi : 0 <= Z.of_nat n < PhoenixZPA.atom_capacity z1) by lia.
    rewrite seq_S, write_loop_app, E1. cbn [Nat.add write_loop].
    rewrite (admitted_write z1 (clock n) (Z.of_nat n) dummy_data 1 W1 Hi
               admissible_dummy).
    eexists. split; [reflexivity|].
    split; [now apply admitted_wf|].
    split; [exact C1|].
    cbn [with_map PhoenixZPA.map].
    split; [rewrite admitted_length by assumption; exact L1|].
    split.
    + intros i Hlt. destruct (Nat.eq_dec i n) as [->|Hne].
      * rewrite admitted_slot by assumption.
        apply atom_image_full;
          [now apply old_payload_length | apply repeat_length | reflexivity].
      * rewrite admitted_other_slot by (assumption || lia). apply S1. lia.
    + intros j Hj. rewrite admitted_other_slot by (assumption || lia).
      apply O1. lia.
Qed.

End Sequences.
(** * The claims *)

(** ** Round trip *)

(** C1, as amended. On an engine that satisfies its invariant, for a valid
    index and a payload whose score is at least the threshold, [write_atom]
    returns [True]; [read_atom] at the same index then returns the record
    of that slot, whose [magic] is the signature, whose [schema] is the
    argument reduced modulo [2 ^ 16] (the argument itself when it fits 16
    bits), and whose [payload] is the argument cut to 32 bytes and stopped
    before its first zero byte. *)
Theorem write_read_round_trip
        (self : PhoenixZPA.t) (now i : Z) (data : list byte) (s : Z)
        (Hwf : wf self)
        (Hi : 0 <= i < PhoenixZPA.atom_capacity self)
        (Hadm : admissible data) :
  exists self',
    PhoenixZPA.write_atom self now i data s = (Return true, self')
    /\ PhoenixZPA.read_atom self' i = Return (Some (i * ATOM_SIZE))
    /\ get_int (PhoenixZPA.map self') (i * ATOM_SIZE) magic = MAGIC_SIG
    /\ get_int (PhoenixZPA.map self') (i * ATOM_SIZE) schema = s mod 2 ^ 16
    /\ (0 <= s < 2 ^ 16 ->
        get_int (PhoenixZPA.map self') (i * ATOM_SIZE) schema = s)
    /\ get_chars (PhoenixZPA.map self') (i * ATOM_SIZE) payload
       = c_string (firstn 32 data).
Proof.
  eexists. split; [now apply admitted_write|].
  split; [now apply admitted_read|].
  cbn [with_map PhoenixZPA.map].
  split; [now apply admitted_magic|].
  split; [now apply admitted_schema|].
  split.
  { intros Hs. rewrite admitted_schema by assumption. now apply Z.mod_small. }
  now apply admitted_chars.
Qed.

Lemma write_read_round_trip_witness :
  exists self',
    PhoenixZPA.write_atom engine_1mb 0 0 [x41] 1 = (Return true, self')
    /\ PhoenixZPA.read_atom self' 0 = Return (Some (0 * ATOM_SIZE))
    /\ get_int (PhoenixZPA.map self') (0 * ATOM_SIZE) magic = MAGIC_SIG
    /\ get_int (PhoenixZPA.map self') (0 * ATOM_SIZE) schema = 1 mod 2 ^ 16
    /\ (0 <= 1 < 2 ^ 16 ->
        get_int (PhoenixZPA.map self') (0 * ATOM_SIZE) schema = 1)
    /\ get_chars (PhoenixZPA.map self') (0 * ATOM_SIZE) payload
       = c_string (firstn 32 [x41]).
Proof.
  apply (write_read_round_trip engine_1mb 0 0 [x41] 1).
  - exact engine_1mb_wf.
  - rewrite engine_1mb_capacity. lia.
  - exact admissible_A.
Defined.

(** C1, as stated, fails on the payload and on the schema. The one-byte
    payload [b"A"] is admitted, and the record read back has the payload
    [b"A"], one byte long, not [b"A"] padded to 32 bytes; with the schema
    argument 65537 the record read back has schema 1. *)
Lemma round_trip_counterexample :
  exists e e1 e2,
    PhoenixZPA.__init__ None 1 = Return e
    /\ admissible [x41]
    /\ PhoenixZPA.write_atom e 0 0 [x41] 1 = (Return true, e1)
    /\ PhoenixZPA.read_atom e1 0 = Return (Some 0)
    /\ get_chars (PhoenixZPA.map e1) 0 payload = [x41]
    /\ get_chars (PhoenixZPA.map e1) 0 payload <> ljust (firstn 32 [x41]) 32 x00
    /\ PhoenixZPA.write_atom e 0 0 [x41] 65537 = (Return true, e2)
    /\ PhoenixZPA.read_atom e2 0 = Return (Some 0)
    /\ get_int (PhoenixZPA.map e2) 0 schema = 1
    /\ get_int (PhoenixZPA.map e2) 0 schema <> 65537.
Proof.
  assert (H0 : 0 <= 0 < PhoenixZPA.atom_capacity engine_1mb)
    by (apply engine_1mb_slot; lia).
  pose proof (admitted_write engine_1mb 0 0 [x41] 1 engine_1mb_wf H0 admissible_A) as W1.
  pose proof (admitted_read engine_1mb 0 0 [x41] 1 engine_1mb_wf H0) as R1.
  pose proof (admitted_chars engine_1mb 0 0 [x41] 1 engine_1mb_wf H0) as P1.
  pose proof (admitted_write engine_1mb 0 0 [x41] 65537 engine_1mb_wf H0 admissible_A) as W2.
  pose proof (admitted_read engine_1mb 0 0 [x41] 65537 engine_1mb_wf H0) as R2.
  pose proof (admitted_schema engine_1mb 0 0 [x41] 65537 engine_1mb_wf H0) as S2.
  change (0 * ATOM_SIZE) with 0 in *.
  eexists engine_1mb, _, _.
  split; [exact init_1mb|]. split; [exact admissible_A|].
  split; [exact W1|]. split; [exact R1|].
  cbn [with_map PhoenixZPA.map].
  split; [exact P1|]. split; [rewrite P1; discriminate|].
  split; [exact W2|]. split; [exact R2|].
  cbn [with_map PhoenixZPA.map].
  split; [exact S2|]. rewrite S2. discriminate.
Qed.

(** ** Rejection *)

(** C2, as amended. For an index below the capacity and a payload whose
    score is under the threshold, [write_atom] returns [False] and leaves
    the engine as it was, so every field of every slot keeps its value.
    The score is [min(0.99, (distinct / length) * PHI)], and 0 for the
    empty payload. A payload of zero bytes scores under the threshold at
    every length but 1 and 2; at lengths 1 and 2 it is admitted. *)
Theorem low_score_rejected
        (self : PhoenixZPA.t) (now i : Z) (data : list byte) (s : Z)
        (Hi : i < PhoenixZPA.atom_capacity self)
        (Hlow : PyFloat.ltb (PhoenixZPA._calculate_h_score data) H_THRESHOLD = true) :
  PhoenixZPA.write_atom self now i data s = (Return false, self)
  /\ PhoenixZPA._calculate_h_score data
     = match data with
       | [] => S754_zero false
       | _ :: _ =>
           PyFloat.min (PyFloat.literal 99 2)
                       (PyFloat.mul
                          (PyFloat.int_true_div (Pos.of_nat (distinct data))
                                                (Pos.of_nat (length data)))
                          PHI)
       end
  /\ (forall n : nat, n <> 1%nat -> n <> 2%nat ->
        PyFloat.ltb (PhoenixZPA._calculate_h_score (repeat x00 n)) H_THRESHOLD = true)
  /\ (forall n : nat, n = 1%nat \/ n = 2%nat ->
        PyFloat.ltb (PhoenixZPA._calculate_h_score (repeat x00 n)) H_THRESHOLD = false).
Proof.
  split; [now apply write_atom_rejected|].
  split; [destruct data; [vm_compute|]; reflexivity|].
  split.
  - intros n H1 H2. apply low_ratio_rejected.
    destruct n as [|n]; [simpl; lia|].
    rewrite distinct_repeat, repeat_length. lia.
  - intros n [->| ->]; vm_compute; reflexivity.
Qed.

Lemma three_zero_bytes_low :
  PyFloat.ltb (PhoenixZPA._calculate_h_score [x00; x00; x00]) H_THRESHOLD = true.
Proof. vm_compute. reflexivity. Qed.

Lemma low_score_rejected_witness :
  PhoenixZPA.write_atom engine_1mb 0 0 [x00; x00; x00] 1 = (Return false, engine_1mb).
Proof.
  apply (low_score_rejected engine_1mb 0 0 [x00; x00; x00] 1).
  - rewrite engine_1mb_capacity. lia.
  - exact three_zero_bytes_low.
Defined.

(** C2, as stated, fails for a payload of one zero byte: its score is 0.99,
    not 0; [write_atom] returns [True], and the [magic] of the slot goes
    from 0 to the signature. *)
Lemma rejection_counterexample :
  exists e e',
    PhoenixZPA.__init__ None 1 = Return e
    /\ PhoenixZPA._calculate_h_score [x00] = PyFloat.literal 99 2
    /\ PyFloat.ltb (PhoenixZPA._calculate_h_score [x00]) H_THRESHOLD = false
    /\ PhoenixZPA.write_atom e 0 0 [x00] 1 = (Return true, e')
    /\ get_int (PhoenixZPA.map e) 0 magic = 0
    /\ get_int (PhoenixZPA.map e') 0 magic = MAGIC_SIG.
Proof.
  assert (H0 : 0 <= 0 < PhoenixZPA.atom_capacity engine_1mb)
    by (apply engine_1mb_slot; lia).
  assert (Ha : admissible [x00]) by (vm_compute; reflexivity).
  pose proof (admitted_write engine_1mb 0 0 [x00] 1 engine_1mb_wf H0 Ha) as W.
  pose proof (admitted_magic engine_1mb 0 0 [x00] 1 engine_1mb_wf H0) as G.
  change (0 * ATOM_SIZE) with 0 in *.
  eexists engine_1mb, _.
  split; [exact init_1mb|]. split; [apply score_one|].
  split; [now apply ltb_score_of_admissible|].
  split; [exact W|]. split; [|exact G].
  apply zero_slot_magic. apply (fresh_slot _ 0); [lia|].
  rewrite Z2Nat.id; unfold ATOM_SIZE; lia.
Qed.

(** ** Bounds *)

(** C3: what the code does at the bounds, on the engine of one megabyte
    (capacity 16384). [write_atom] at the capacity raises [IndexError] and
    at the last index succeeds, as the claim says. But [write_atom] at
    index -1 with a payload of three zero bytes returns [False] without
    raising, with an admitted payload it raises the [ValueError] of the
    overlay, and [read_atom] checks no bound: at -1 and at the capacity it
    raises the [ValueError] of the overlay, not [IndexError]. *)
Theorem bounds_behaviour (now s : Z) :
  PhoenixZPA.write_atom engine_1mb now 16384 dummy_data s
  = (Raise IndexError, engine_1mb)
  /\ fst (PhoenixZPA.write_atom engine_1mb now 16383 dummy_data s) = Return true
  /\ PhoenixZPA.write_atom engine_1mb now (-1) [x00; x00; x00] s
     = (Return false, engine_1mb)
  /\ PhoenixZPA.write_atom engine_1mb now (-1) dummy_data s
     = (Raise ValueError, engine_1mb)
  /\ PhoenixZPA.read_atom engine_1mb (-1) = Raise ValueError
  /\ PhoenixZPA.read_atom engine_1mb 16384 = Raise ValueError.
Proof.
  assert (Hd : admissible dummy_data) by (vm_compute; reflexivity).
  split; [apply write_atom_full; rewrite engine_1mb_capacity; lia|].
  split.
  { rewrite (admitted_write engine_1mb now 16383 dummy_data s engine_1mb_wf);
      [reflexivity | apply engine_1mb_slot; lia | exact Hd]. }
  split.
  { apply write_atom_rejected;
      [rewrite engine_1mb_capacity; lia | exact three_zero_bytes_low]. }
  split.
  { apply write_atom_negative;
      [lia | unfold ATOM_SIZE, PY_SSIZE_T_MAX; lia
       | rewrite engine_1mb_capacity; lia | now apply ltb_score_of_admissible]. }
  split; apply read_atom_out_of_range;
    [unfold ATOM_SIZE, PY_SSIZE_T_MAX; lia | left; lia
     | unfold ATOM_SIZE, PY_SSIZE_T_MAX; lia | right].
  cbn [engine_1mb PhoenixZPA.map]. rewrite repeat_length, Z2Nat.id by lia.
  unfold ATOM_SIZE. lia.
Qed.

(** ** The scenario of the benchmark *)

(** C4. On the engine built with [size_mb = 1] over a new file the capacity
    is 16384; the benchmark payload scores 0.99, above the threshold;
    [write_atom(0, payload, 1)] returns [True]; [read_atom(0)] then gives a
    record whose payload is the first 32 bytes of the payload, 32 bytes
    long; and [read_atom(1)] gives [None]. *)
Theorem benchmark_scenario (now : Z) :
  exists e e',
    PhoenixZPA.__init__ None 1 = Return e
    /\ PhoenixZPA.atom_capacity e = 16384
    /\ PhoenixZPA._calculate_h_score dummy_data = PyFloat.literal 99 2
    /\ PyFloat.ltb H_THRESHOLD (PhoenixZPA._calculate_h_score dummy_data) = true
    /\ PhoenixZPA.write_atom e now 0 dummy_data 1 = (Return true, e')
    /\ PhoenixZPA.read_atom e' 0 = Return (Some 0)
    /\ get_chars (PhoenixZPA.map e') 0 payload = firstn 32 dummy_data
    /\ get_chars (PhoenixZPA.map e') 0 payload
       = list_byte_of_string "Lichen Universe Semantic Payload"
    /\ length (get_chars (PhoenixZPA.map e') 0 payload) = 32%nat
    /\ PhoenixZPA.read_atom e' 1 = Return None.
Proof.
  assert (H0 : 0 <= 0 < PhoenixZPA.atom_capacity engine_1mb)
    by (apply engine_1mb_slot; lia).
  assert (Hd : admissible dummy_data) by (vm_compute; reflexivity).
  pose proof (admitted_write engine_1mb now 0 dummy_data 1 engine_1mb_wf H0 Hd) as W.
  pose proof (admitted_read engine_1mb now 0 dummy_data 1 engine_1mb_wf H0) as R.
  pose proof (admitted_chars engine_1mb now 0 dummy_data 1 engine_1mb_wf H0) as P.
  pose proof (admitted_other_slot engine_1mb now 0 dummy_data 1 engine_1mb_wf H0 1
                ltac:(lia) ltac:(lia)) as O.
  pose proof (admitted_length engine_1mb now 0 dummy_data 1 engine_1mb_wf H0) as L.
  change (0 * ATOM_SIZE) with 0 in *.
  eexists engine_1mb, _.
  split; [exact init_1mb|]. split; [reflexivity|].
  split; [vm_compute; reflexivity|]. split; [vm_compute; reflexivity|].
  split; [exact W|]. split; [exact R|].
  cbn [with_map PhoenixZPA.map].
  split; [rewrite P; vm_compute; reflexivity|].
  split; [rewrite P; vm_compute; reflexivity|].
  split; [rewrite P; vm_compute; reflexivity|].
  assert (Hlen : Z.of_nat (length (PhoenixZPA.map engine_1mb)) = 1048576).
  { cbn [engine_1mb PhoenixZPA.map]. rewrite repeat_length, Z2Nat.id; lia. }
  rewrite read_atom_in_range; cbn [with_map PhoenixZPA.map];
    [|lia|rewrite L, Hlen; unfold ATOM_SIZE; lia
     |unfold ATOM_SIZE, PY_SSIZE_T_MAX; lia].
  rewrite zero_slot_magic; [reflexivity|].
  rewrite O. apply fresh_slot; [lia|].
  rewrite Z2Nat.id; unfold ATOM_SIZE; lia.
Qed.

(** ** Absence *)

(** C5. On an engine built over a new, zero-filled file, after any sequence
    of [write_atom] calls none of which wrote slot [i] with success,
    [read_atom(i)] at a valid index returns [None]: it neither raises nor
    gives a record. *)
Theorem unwritten_slot_reads_absent
        (size_mb : Z) (e0 : PhoenixZPA.t) (cs : list call) (i : Z)
        (Hinit : PhoenixZPA.__init__ None size_mb = Return e0)
        (Hi : 0 <= i < PhoenixZPA.atom_capacity e0)
        (Hnever : written e0 i cs = false) :
  PhoenixZPA.read_atom (replay e0 cs) i = Return None.
Proof.
  pose proof (init_wf _ _ _ Hinit) as Hwf.
  destruct (init_fields _ _ _ Hinit) as (_ & Hc & Hs & Hm & Hl).
  assert (Hpos : 0 < size_mb).
  { destruct (Z.eq_dec size_mb 0) as [->|]; [|lia]. rewrite Hc in Hi.
    change (0 * 1024 * 1024 / ATOM_SIZE) with 0 in Hi. lia. }
  assert (Hmax : size_mb * 1024 * 1024 <= PY_SSIZE_T_MAX)
    by (rewrite <- Hl by assumption; exact Hm).
  rewrite (init_new _ Hpos Hmax) in Hinit. injection Hinit as <-.
  destruct (replay_invariant cs _ Hwf) as [Wr Cr].
  pose proof (slot_in_region _ i Wr ltac:(rewrite Cr; exact Hi)) as Hin.
  pose proof (slot_in_region _ i Hwf Hi) as Hin0.
  pose proof (region_fits _ Wr) as Hfit.
  rewrite read_atom_in_range by (unfold ATOM_SIZE in *; lia).
  rewrite zero_slot_magic; [reflexivity|].
  rewrite replay_unwritten by (assumption || lia).
  cbn [PhoenixZPA.map] in *. apply fresh_slot; [lia|].
  rewrite repeat_length in Hin0. exact Hin0.
Qed.

Lemma unwritten_slot_reads_absent_witness :
  PhoenixZPA.read_atom
    (replay engine_1mb [mk_call 0 0 dummy_data 1; mk_call 5 2 [x00; x00; x00] 1])
    2
  = Return None.
Proof.
  apply (unwritten_slot_reads_absent 1).
  - exact init_1mb.
  - rewrite engine_1mb_capacity. lia.
  - vm_compute. reflexivity.
Defined.

(** ** Overwrite *)

(** C6 does not hold of the code. On the engine of one megabyte, write
    to slot 0 the benchmark payload and then the one-byte payload [b"A"]:
    both calls return [True], and [read_atom] then gives a record whose
    [payload] is [b"A"]; but the 32 bytes of the payload field are [b"A"],
    one zero byte, and the last 30 bytes of the first payload,
    ["chen Universe Semantic Payload"], not [b"A"] padded with zeros. The
    source pads the payload to 32 bytes before the assignment, and the
    assignment copies the bytes before the first zero byte and one zero
    byte only. *)
Theorem overwrite_leaves_residue (now1 now2 : Z) :
  exists e e1 e2,
    PhoenixZPA.__init__ None 1 = Return e
    /\ admissible dummy_data
    /\ admissible [x41]
    /\ PhoenixZPA.write_atom e now1 0 dummy_data 1 = (Return true, e1)
    /\ PhoenixZPA.write_atom e1 now2 0 [x41] 1 = (Return true, e2)
    /\ PhoenixZPA.read_atom e2 0 = Return (Some 0)
    /\ get_chars (PhoenixZPA.map e2) 0 payload = [x41]
    /\ raw_field (PhoenixZPA.map e2) 0 payload
       = [x41; x00] ++ list_byte_of_string "chen Universe Semantic Payload"
    /\ raw_field (PhoenixZPA.map e2) 0 payload <> ljust (firstn 32 [x41]) 32 x00
    /\ skipn 2 (raw_field (PhoenixZPA.map e2) 0 payload)
       = skipn 2 (firstn 32 dummy_data).
Proof.
  assert (H0 : 0 <= 0 < PhoenixZPA.atom_capacity engine_1mb)
    by (apply engine_1mb_slot; lia).
  destruct (overwrite_run engine_1mb now1 now2 0 dummy_data [x41] 1 1
              engine_1mb_wf H0 admissible_dummy admissible_A)
    as (e1 & e2 & W1 & W2 & R2 & C2 & P2).
  change (0 * ATOM_SIZE) with 0 in *.
  assert (E : payload_after
                (payload_after (raw_field (PhoenixZPA.map engine_1mb) 0 payload)
                               dummy_data) [x41]
              = [x41; x00]
                  ++ list_byte_of_string "chen Universe Semantic Payload")
    by (vm_compute; reflexivity).
  rewrite E in P2.
  exists engine_1mb, e1, e2.
  split; [exact init_1mb|]. split; [exact admissible_dummy|].
  split; [exact admissible_A|].
  split; [exact W1|]. split; [exact W2|]. split; [exact R2|].
  split; [exact C2|]. split; [exact P2|].
  rewrite P2.
  split; [vm_compute; discriminate | vm_compute; reflexivity].
Qed.

(** ** Capacity *)

(** C7. An engine that the constructor returns has
    [size_bytes = size_mb * 1024 * 1024] and
    [atom_capacity = size_bytes // 64], with no remainder:
    [atom_capacity * 64 = size_bytes]; for a positive [size_mb] the mapped
    region has [size_bytes] bytes; with [size_mb = 100] the capacity is
    1638400 = 104857600 / 64; and no call of [write_atom] changes
    [atom_capacity] or [size_bytes]. *)
Theorem capacity_derivation
        (existing : option (list byte)) (size_mb : Z) (self : PhoenixZPA.t)
        (Hinit : PhoenixZPA.__init__ existing size_mb = Return self) :
  PhoenixZPA.size_bytes self = size_mb * 1024 * 1024
  /\ PhoenixZPA.atom_capacity self = PhoenixZPA.size_bytes self / 64
  /\ PhoenixZPA.atom_capacity self * 64 = PhoenixZPA.size_bytes self
  /\ (0 < size_mb ->
      Z.of_nat (length (PhoenixZPA.map self)) = PhoenixZPA.size_bytes self)
  /\ (size_mb = 100 ->
      PhoenixZPA.atom_capacity self = 1638400
      /\ 100 * 1024 * 1024 = 1638400 * 64)
  /\ (forall now i data s,
        PhoenixZPA.atom_capacity (snd (PhoenixZPA.write_atom self now i data s))
        = PhoenixZPA.atom_capacity self
        /\ PhoenixZPA.size_bytes (snd (PhoenixZPA.write_atom self now i data s))
           = PhoenixZPA.size_bytes self).
Proof.
  destruct (init_fields _ _ _ Hinit) as (Hs & Hc & H0 & _ & Hl).
  unfold ATOM_SIZE in Hc.
  split; [exact Hs|]. split; [now rewrite Hs|].
  split.
  { rewrite Hc, Hs.
    replace (size_mb * 1024 * 1024) with (size_mb * 16384 * 64) by lia.
    rewrite Z.div_mul by lia. reflexivity. }
  split; [intros Hp; rewrite Hs; now apply Hl|].
  split; [intros ->; rewrite Hc; split; reflexivity|].
  intros now i data s. apply write_atom_capacity.
Qed.

Lemma capacity_derivation_witness :
  PhoenixZPA.size_bytes engine_1mb = 1 * 1024 * 1024
  /\ PhoenixZPA.atom_capacity engine_1mb = PhoenixZPA.size_bytes engine_1mb / 64
  /\ PhoenixZPA.atom_capacity engine_1mb * 64 = PhoenixZPA.size_bytes engine_1mb.
Proof.
  destruct (capacity_derivation None 1 engine_1mb init_1mb) as (A & B & C & _).
  exact (conj A (conj B C)).
Defined.

(** ** Frame *)

(** C8. An admitted write to a valid index returns [True], keeps the length
    of the region, and changes no byte outside the 64 bytes of its slot,
    from offset [i * 64] to [i * 64 + 63]: every other byte, hence every
    other slot, is as before. *)
Theorem write_frame
        (self : PhoenixZPA.t) (now i : Z) (data : list byte) (s : Z)
        (Hwf : wf self)
        (Hi : 0 <= i < PhoenixZPA.atom_capacity self)
        (Hadm : admissible data) :
  exists self',
    PhoenixZPA.write_atom self now i data s = (Return true, self')
    /\ length (PhoenixZPA.map self') = length (PhoenixZPA.map self)
    /\ (forall k : nat,
          Z.of_nat k < i * 64 \/ i * 64 + 64 <= Z.of_nat k ->
          nth_error (PhoenixZPA.map self') k = nth_error (PhoenixZPA.map self) k)
    /\ (forall j : Z,
          0 <= j -> j <> i ->
          load (PhoenixZPA.map self') (j * ATOM_SIZE) 64
          = load (PhoenixZPA.map self) (j * ATOM_SIZE) 64).
Proof.
  eexists. split; [now apply admitted_write|].
  cbn [with_map PhoenixZPA.map].
  split; [now apply admitted_length|].
  split.
  - intros k Hk. apply admitted_outside; unfold ATOM_SIZE; assumption.
  - intros j Hj Hne. now apply admitted_other_slot.
Qed.

Lemma write_frame_witness :
  exists self',
    PhoenixZPA.write_atom engine_1mb 0 3 dummy_data 1 = (Return true, self')
    /\ length (PhoenixZPA.map self') = length (PhoenixZPA.map engine_1mb)
    /\ (forall k : nat,
          Z.of_nat k < 3 * 64 \/ 3 * 64 + 64 <= Z.of_nat k ->
          nth_error (PhoenixZPA.map self') k
          = nth_error (PhoenixZPA.map engine_1mb) k)
    /\ (forall j : Z,
          0 <= j -> j <> 3 ->
          load (PhoenixZPA.map self') (j * ATOM_SIZE) 64
          = load (PhoenixZPA.map engine_1mb) (j * ATOM_SIZE) 64).
Proof.
  apply (write_frame engine_1mb 0 3 dummy_data 1).
  - exact engine_1mb_wf.
  - rewrite engine_1mb_capacity. lia.
  - exact admissible_dummy.
Defined.

(** ** The payload as a C string *)

(** C9. After an admitted write to a valid index, the [payload] attribute
    of the record is the stored 32 bytes up to, and without, their first
    zero byte: it is the argument cut to 32 bytes and stopped before its
    first zero byte. So a payload shorter than 32 bytes without zero byte
    reads back as itself, without the padding, and a payload with a zero
    byte among its first 32 reads back cut at that byte. *)
Theorem payload_nul_truncation
        (self : PhoenixZPA.t) (now i : Z) (data : list byte) (s : Z)
        (Hwf : wf self)
        (Hi : 0 <= i < PhoenixZPA.atom_capacity self)
        (Hadm : admissible data) :
  exists self',
    PhoenixZPA.write_atom self now i data s = (Return true, self')
    /\ PhoenixZPA.read_atom self' i = Return (Some (i * ATOM_SIZE))
    /\ get_chars (PhoenixZPA.map self') (i * ATOM_SIZE) payload
       = c_string (raw_field (PhoenixZPA.map self') (i * ATOM_SIZE) payload)
    /\ get_chars (PhoenixZPA.map self') (i * ATOM_SIZE) payload
       = c_string (firstn 32 data)
    /\ ~ In x00 (get_chars (PhoenixZPA.map self') (i * ATOM_SIZE) payload)
    /\ ((length data < 32)%nat -> ~ In x00 data ->
        get_chars (PhoenixZPA.map self') (i * ATOM_SIZE) payload = data)
    /\ (forall a b, data = a ++ x00 :: b -> (length a < 32)%nat -> ~ In x00 a ->
        get_chars (PhoenixZPA.map self') (i * ATOM_SIZE) payload = a).
Proof.
  eexists. split; [now apply admitted_write|].
  split; [now apply admitted_read|].
  cbn [with_map PhoenixZPA.map].
  split; [reflexivity|].
  rewrite admitted_chars by assumption.
  split; [reflexivity|].
  split.
  { destruct (c_string_prefix (firstn 32 data)) as (b & _ & Hn & _). exact Hn. }
  split.
  - intros Hl Hn. rewrite firstn_all2 by lia. now apply c_string_no_nul.
  - intros a b -> Hl Hn.
    rewrite firstn_app.
    replace (32 - length a)%nat with (S (31 - length a)) by lia.
    rewrite firstn_all2 by lia. cbn [firstn].
    rewrite c_string_app_nul. now apply c_string_no_nul.
Qed.

Lemma payload_nul_truncation_witness :
  exists self',
    PhoenixZPA.write_atom engine_1mb 0 0 [x41; x00; x42] 1 = (Return true, self')
    /\ PhoenixZPA.read_atom self' 0 = Return (Some (0 * ATOM_SIZE))
    /\ get_chars (PhoenixZPA.map self') (0 * ATOM_SIZE) payload
       = c_string (raw_field (PhoenixZPA.map self') (0 * ATOM_SIZE) payload)
    /\ get_chars (PhoenixZPA.map self') (0 * ATOM_SIZE) payload
       = c_string (firstn 32 [x41; x00; x42])
    /\ ~ In x00 (get_chars (PhoenixZPA.map self') (0 * ATOM_SIZE) payload)
    /\ ((length [x41; x00; x42] < 32)%nat -> ~ In x00 [x41; x00; x42] ->
        get_chars (PhoenixZPA.map self') (0 * ATOM_SIZE) payload = [x41; x00; x42])
    /\ (forall a b, [x41; x00; x42] = a ++ x00 :: b -> (length a < 32)%nat ->
        ~ In x00 a ->
        get_chars (PhoenixZPA.map self') (0 * ATOM_SIZE) payload = a).
Proof.
  apply (payload_nul_truncation engine_1mb 0 0 [x41; x00; x42] 1).
  - exact engine_1mb_wf.
  - rewrite engine_1mb_capacity. lia.
  - vm_compute. reflexivity.
Defined.

(** ** Short payloads *)

(** C10. A payload of length 1 or 2, whatever its bytes, scores at least
    [min(0.99, PHI / 2)], which is above the threshold; so its score is not
    under the threshold, and [write_atom] at a valid index returns [True]. *)
Theorem short_payload_admitted (data : list byte)
        (Hlen : length data = 1%nat \/ length data = 2%nat) :
  PyFloat.leb (PyFloat.min (PyFloat.literal 99 2) (PyFloat.div PHI (PyFloat.of_int 2)))
              (PhoenixZPA._calculate_h_score data) = true
  /\ PyFloat.ltb H_THRESHOLD
                 (PyFloat.min (PyFloat.literal 99 2)
                              (PyFloat.div PHI (PyFloat.of_int 2))) = true
  /\ PyFloat.ltb (PhoenixZPA._calculate_h_score data) H_THRESHOLD = false
  /\ forall (self : PhoenixZPA.t) (now i s : Z),
      wf self -> 0 <= i < PhoenixZPA.atom_capacity self ->
      fst (PhoenixZPA.write_atom self now i data s) = Return true.
Proof.
  assert (Hs : PhoenixZPA._calculate_h_score data = PyFloat.literal 99 2
               \/ PhoenixZPA._calculate_h_score data
                  = PyFloat.mul (PyFloat.int_true_div 1 2) PHI).
  { destruct data as [|a [|b [|c r]]]; simpl in Hlen; try lia.
    - left. apply score_one.
    - apply score_two. }
  assert (Hge : PyFloat.leb H_THRESHOLD (PhoenixZPA._calculate_h_score data) = true)
    by (destruct Hs as [-> | ->]; vm_compute; reflexivity).
  split; [destruct Hs as [-> | ->]; vm_compute; reflexivity|].
  split; [vm_compute; reflexivity|].
  split; [now apply ltb_of_leb|].
  intros self now i s Hwf Hi.
  now rewrite (admitted_write self now i data s Hwf Hi Hge).
Qed.

Lemma short_payload_admitted_witness :
  PyFloat.ltb (PhoenixZPA._calculate_h_score [x00; x00]) H_THRESHOLD = false.
Proof.
  apply (short_payload_admitted [x00; x00]). right. reflexivity.
Defined.

(** * Further properties of the code *)

(** ** The outcomes of [write_atom] *)

(** X1. On an engine that satisfies its invariant, a call of [write_atom]
    ends in one of five ways, decided in this order: [IndexError] when the
    index is at or above the capacity; [False] when the score is under the
    threshold; the [OverflowError] of the overlay when the offset
    [index * 64] is below [- 2 ^ 63], so that no C [ssize_t] holds it; the
    [ValueError] of the overlay when the index is negative; [True]
    otherwise. Only the last changes the region: it stores in the slot the
    integer fields, the payload up to its first zero byte with one zero
    byte after it when that is less than 32 bytes, and leaves the rest of
    the payload field as it was. No call raises from [int()], and no call
    leaves a record half written. *)
Theorem write_atom_outcomes
        (self : PhoenixZPA.t) (now i : Z) (data : list byte) (s : Z)
        (Hwf : wf self) :
  PhoenixZPA.write_atom self now i data s
  = if i >=? PhoenixZPA.atom_capacity self then (Raise IndexError, self)
    else if PyFloat.ltb (PhoenixZPA._calculate_h_score data) H_THRESHOLD
         then (Return false, self)
         else if i * ATOM_SIZE <? - 2 ^ 63 then (Raise OverflowError, self)
              else if i <? 0 then (Raise ValueError, self)
                   else (Return true,
                         with_map self
                           (store (PhoenixZPA.map self) (i * ATOM_SIZE)
                              (atom_image
                                 (raw_field (PhoenixZPA.map self)
                                            (i * ATOM_SIZE) payload)
                                 now data s (h_field data)))).
Proof.
  destruct (Z.geb_spec i (PhoenixZPA.atom_capacity self)) as [Hc|Hc].
  { apply write_atom_full. lia. }
  destruct (PyFloat.ltb (PhoenixZPA._calculate_h_score data) H_THRESHOLD) eqn:Hs.
  { now apply write_atom_rejected. }
  destruct (Z.ltb_spec (i * ATOM_SIZE) (- 2 ^ 63)) as [Ho|Ho].
  { apply write_atom_overflow; [unfold PY_SSIZE_T_MAX; lia|lia|assumption]. }
  destruct (Z.ltb_spec i 0) as [Hn|Hn].
  { apply write_atom_negative;
      [assumption | unfold PY_SSIZE_T_MAX; lia | assumption | assumption]. }
  apply write_atom_admitted; [assumption|lia|assumption].
Qed.

Lemma write_atom_outcomes_witness :
  PhoenixZPA.write_atom engine_1mb 0 (-1) dummy_data 1
  = (Raise ValueError, engine_1mb)
  /\ PhoenixZPA.write_atom engine_1mb 0 (- 2 ^ 57 - 1) dummy_data 1
     = (Raise OverflowError, engine_1mb).
Proof.
  split.
  - rewrite (write_atom_outcomes engine_1mb 0 (-1) dummy_data 1 engine_1mb_wf).
    rewrite engine_1mb_capacity.
    rewrite (ltb_score_of_admissible dummy_data admissible_dummy).
    reflexivity.
  - rewrite (write_atom_outcomes engine_1mb 0 (- 2 ^ 57 - 1) dummy_data 1
               engine_1mb_wf).
    rewrite engine_1mb_capacity.
    rewrite (ltb_score_of_admissible dummy_data admissible_dummy).
    reflexivity.
Defined.

(** ** The fields of a written record *)

(** X2. After an admitted write to a valid index, the integer fields of the
    record read back as the code set them: [pi_index] is the clock value
    modulo [2 ^ 64], [geo_hash] is [0xCAFEBABE], [flags] is 42, [strands]
    is [0xDEADBEEF], and [h_score] is [int(score * 10000)], a number
    between 6180 and 9900 that the 16-bit field holds without wrapping. *)
Theorem written_record_fields
        (self : PhoenixZPA.t) (now i : Z) (data : list byte) (s : Z)
        (Hwf : wf self)
        (Hi : 0 <= i < PhoenixZPA.atom_capacity self)
        (Hadm : admissible data) :
  exists self',
    PhoenixZPA.write_atom self now i data s = (Return true, self')
    /\ get_int (PhoenixZPA.map self') (i * ATOM_SIZE) pi_index = now mod 2 ^ 64
    /\ get_int (PhoenixZPA.map self') (i * ATOM_SIZE) geo_hash = 0xCAFEBABE
    /\ get_int (PhoenixZPA.map self') (i * ATOM_SIZE) flags = 42
    /\ get_int (PhoenixZPA.map self') (i * ATOM_SIZE) strands = 0xDEADBEEF
    /\ get_int (PhoenixZPA.map self') (i * ATOM_SIZE) h_score = h_field data
    /\ PyFloat.to_int (PyFloat.mul (PhoenixZPA._calculate_h_score data)
                                   (PyFloat.of_int 10000))
       = Return (h_field data)
    /\ 6180 <= h_field data <= 9900.
Proof.
  pose proof (slot_bounds self i Hwf Hi) as [B0 B1].
  pose proof (ltb_score_of_admissible data Hadm) as Hs.
  pose proof (h_field_range data Hs) as Hr.
  eexists. split; [now apply admitted_write|].
  cbn [with_map PhoenixZPA.map].
  pose proof (old_payload_length self i Hwf Hi) as Ho.
  unfold region_after.
  split; [apply stored_pi_index; [exact Ho|lia..]|].
  split; [apply stored_geo_hash; [exact Ho|lia..]|].
  split; [apply stored_flags; [exact Ho|lia..]|].
  split; [apply stored_strands; [exact Ho|lia..]|].
  split; [rewrite stored_h_score by (exact Ho || lia); apply Z.mod_small; lia|].
  split; [|exact Hr].
  unfold h_field.
  assert (Hint : exists z,
             PyFloat.to_int (PyFloat.mul (PhoenixZPA._calculate_h_score data)
                                         (PyFloat.of_int 10000)) = Return z)
    by exact (h_score_int _ Hs).
  destruct Hint as [z ->]. reflexivity.
Qed.

Lemma written_record_fields_witness :
  exists self',
    PhoenixZPA.write_atom engine_1mb 1762000000000 5 dummy_data 1
    = (Return true, self')
    /\ get_int (PhoenixZPA.map self') (5 * ATOM_SIZE) pi_index
       = 1762000000000 mod 2 ^ 64
    /\ get_int (PhoenixZPA.map self') (5 * ATOM_SIZE) geo_hash = 0xCAFEBABE
    /\ get_int (PhoenixZPA.map self') (5 * ATOM_SIZE) flags = 42
    /\ get_int (PhoenixZPA.map self') (5 * ATOM_SIZE) strands = 0xDEADBEEF
    /\ get_int (PhoenixZPA.map self') (5 * ATOM_SIZE) h_score = h_field dummy_data
    /\ PyFloat.to_int (PyFloat.mul (PhoenixZPA._calculate_h_score dummy_data)
                                   (PyFloat.of_int 10000))
       = Return (h_field dummy_data)
    /\ 6180 <= h_field dummy_data <= 9900.
Proof.
  apply (written_record_fields engine_1mb 1762000000000 5 dummy_data 1).
  - exact engine_1mb_wf.
  - rewrite engine_1mb_capacity. lia.
  - exact admissible_dummy.
Defined.

(** ** Which payloads the filter lets through *)

(** X3. A payload in which at most one byte in three is distinct (three
    times the number of distinct bytes is at most the length) scores under
    the threshold, and [write_atom] at any index below the capacity
    returns [False] and leaves the engine unchanged. *)
Theorem low_ratio_payload_rejected
        (self : PhoenixZPA.t) (now i : Z) (data : list byte) (s : Z)
        (Hi : i < PhoenixZPA.atom_capacity self)
        (Hratio : (3 * distinct data <= length data)%nat) :
  PyFloat.ltb (PhoenixZPA._calculate_h_score data) H_THRESHOLD = true
  /\ PhoenixZPA.write_atom self now i data s = (Return false, self).
Proof.
  pose proof (low_ratio_rejected data Hratio) as Hs.
  split; [exact Hs | now apply write_atom_rejected].
Qed.

Lemma low_ratio_payload_rejected_witness :
  PyFloat.ltb (PhoenixZPA._calculate_h_score [x41; x42; x41; x42; x41; x42])
              H_THRESHOLD = true
  /\ PhoenixZPA.write_atom engine_1mb 0 0 [x41; x42; x41; x42; x41; x42] 1
     = (Return false, engine_1mb).
Proof.
  apply (low_ratio_payload_rejected engine_1mb 0 0 [x41; x42; x41; x42; x41; x42] 1).
  - rewrite engine_1mb_capacity. lia.
  - vm_compute. lia.
Defined.

(** X4. No payload of 768 bytes or more is ever admitted: a payload has at
    most 256 distinct bytes, so its score is under the threshold and
    [write_atom] at an index below the capacity returns [False]. *)
Theorem long_payload_rejected
        (self : PhoenixZPA.t) (now i : Z) (data : list byte) (s : Z)
        (Hi : i < PhoenixZPA.atom_capacity self)
        (Hlen : (768 <= length data)%nat) :
  (distinct data <= 256)%nat
  /\ PyFloat.ltb (PhoenixZPA._calculate_h_score data) H_THRESHOLD = true
  /\ PhoenixZPA.write_atom self now i data s = (Return false, self).
Proof.
  pose proof (distinct_le_256 data) as Hd.
  assert (Hs : PyFloat.ltb (PhoenixZPA._calculate_h_score data) H_THRESHOLD = true)
    by (apply low_ratio_rejected; lia).
  split; [exact Hd|]. split; [exact Hs | now apply write_atom_rejected].
Qed.

Lemma long_payload_rejected_witness :
  PhoenixZPA.write_atom engine_1mb 0 0 (repeat x41 768) 1
  = (Return false, engine_1mb).
Proof.
  apply (long_payload_rejected engine_1mb 0 0 (repeat x41 768) 1).
  - rewrite engine_1mb_capacity. lia.
  - rewrite repeat_length. lia.
Defined.

(** X5. A nonempty payload in which at least every second byte is distinct
    (the length is at most twice the number of distinct bytes) is admitted:
    its score is not under the threshold, and [write_atom] at a valid index
    returns [True]. A payload of pairwise different bytes is such a
    payload. *)
Theorem high_ratio_payload_admitted
        (self : PhoenixZPA.t) (now i : Z) (data : list byte) (s : Z)
        (Hwf : wf self)
        (Hi : 0 <= i < PhoenixZPA.atom_capacity self)
        (Hne : data <> [])
        (Hratio : (length data <= 2 * distinct data)%nat) :
  PyFloat.ltb (PhoenixZPA._calculate_h_score data) H_THRESHOLD = false
  /\ fst (PhoenixZPA.write_atom self now i data s) = Return true
  /\ (forall l : list byte, NoDup l -> (length l <= 2 * distinct l)%nat).
Proof.
  pose proof (high_ratio_admitted data Hne Hratio) as Hs.
  split; [exact Hs|]. split.
  - now rewrite (write_atom_admitted self now i data s Hwf Hi Hs).
  - intros l Hl. rewrite (distinct_NoDup l Hl). lia.
Qed.

Lemma high_ratio_payload_admitted_witness :
  PyFloat.ltb (PhoenixZPA._calculate_h_score [x41; x42; x41; x43]) H_THRESHOLD
  = false
  /\ fst (PhoenixZPA.write_atom engine_1mb 0 0 [x41; x42; x41; x43] 1)
     = Return true.
Proof.
  destruct (high_ratio_payload_admitted engine_1mb 0 0 [x41; x42; x41; x43] 1)
    as (A & B & _).
  - exact engine_1mb_wf.
  - rewrite engine_1mb_capacity. lia.
  - discriminate.
  - vm_compute. lia.
  - exact (conj A B).
Defined.

(** X6. The score of every payload is a finite float between 0 and 0.99:
    never a NaN, an infinity or a negative number. *)
Theorem score_between_0_and_099 (data : list byte) :
  is_finite (PhoenixZPA._calculate_h_score data) = true
  /\ PyFloat.leb (PyFloat.of_int 0) (PhoenixZPA._calculate_h_score data) = true
  /\ PyFloat.leb (PhoenixZPA._calculate_h_score data) (PyFloat.literal 99 2) = true.
Proof.
  destruct (score_cases data) as [E|[E|(m & e & E & Hlt)]]; rewrite E.
  - vm_compute. auto.
  - vm_compute. auto.
  - split; [reflexivity|]. split; [reflexivity|].
    unfold PyFloat.leb, SFleb. unfold SFltb in Hlt.
    destruct (SFcompare (S754_finite false m e) (PyFloat.literal 99 2)) as [[| |]|];
      try discriminate. reflexivity.
Qed.

(** X7. The score does not depend on the order of the bytes: two payloads
    that are permutations of each other have the same score, so
    [write_atom] admits both or neither. *)
Theorem score_of_permutation (l l' : list byte) (Hperm : Permutation l l') :
  PhoenixZPA._calculate_h_score l = PhoenixZPA._calculate_h_score l'.
Proof.
  unfold PhoenixZPA._calculate_h_score.
  rewrite (distinct_permutation l l' Hperm), (Permutation_length Hperm).
  destruct l as [|a l], l' as [|a' l']; try reflexivity.
  - apply Permutation_length in Hperm. discriminate.
  - apply Permutation_length in Hperm. discriminate.
Qed.

Lemma score_of_permutation_witness :
  PhoenixZPA._calculate_h_score [x41; x42; x43]
  = PhoenixZPA._calculate_h_score [x42; x41; x43].
Proof.
  apply (score_of_permutation [x41; x42; x43] [x42; x41; x43]).
  apply perm_swap.
Defined.

(** ** What [read_atom] returns *)

(** X8. [read_atom] checks no bound and looks at two bytes only. With the
    offset [index * 64]: it raises the [OverflowError] of the overlay when
    no C [ssize_t] holds the offset (below [- 2 ^ 63] or above
    [2 ^ 63 - 1]); otherwise the [ValueError] of the overlay when the index
    is negative or the slot ends beyond the region; otherwise it returns
    the record of the slot when the slot begins with the bytes [F0 01], the
    signature in little-endian order, and [None] when it begins with
    anything else, whatever the other 62 bytes are. *)
Theorem read_atom_by_signature (self : PhoenixZPA.t) (i : Z) :
  (i * ATOM_SIZE < - 2 ^ 63 \/ 2 ^ 63 - 1 < i * ATOM_SIZE ->
   PhoenixZPA.read_atom self i = Raise OverflowError)
  /\ (- 2 ^ 63 <= i * ATOM_SIZE <= 2 ^ 63 - 1 ->
      i < 0 \/ Z.of_nat (length (PhoenixZPA.map self)) < i * ATOM_SIZE + 64 ->
      PhoenixZPA.read_atom self i = Raise ValueError)
  /\ (i * ATOM_SIZE <= 2 ^ 63 - 1 ->
      0 <= i -> i * ATOM_SIZE + 64 <= Z.of_nat (length (PhoenixZPA.map self)) ->
      (load (PhoenixZPA.map self) (i * ATOM_SIZE) 2 = [xf0; x01] ->
       PhoenixZPA.read_atom self i = Return (Some (i * ATOM_SIZE)))
      /\ (load (PhoenixZPA.map self) (i * ATOM_SIZE) 2 <> [xf0; x01] ->
          PhoenixZPA.read_atom self i = Return None)).
Proof.
  split.
  { intros H. apply read_atom_overflow. unfold PY_SSIZE_T_MAX. lia. }
  split.
  { intros Hf H. apply read_atom_out_of_range; [unfold PY_SSIZE_T_MAX; lia|].
    exact H. }
  intros Hf H0 H1.
  rewrite read_atom_in_range by (assumption || (unfold PY_SSIZE_T_MAX; lia)).
  assert (Hg : get_int (PhoenixZPA.map self) (i * ATOM_SIZE) magic
               = le_decode (load (PhoenixZPA.map self) (i * ATOM_SIZE) 2)).
  { unfold get_int. change (field_offset magic) with 0.
    now rewrite Z.add_0_r. }
  rewrite Hg.
  destruct (load_two (PhoenixZPA.map self) (i * ATOM_SIZE)) as (a & b & E);
    [unfold ATOM_SIZE; lia | lia |].
  rewrite E. pose proof (le_decode_two a b) as D.
  split.
  - intros [= -> ->]. reflexivity.
  - intros Hne. destruct (Z.eqb_spec (le_decode [a; b]) MAGIC_SIG) as [Heq|Hneq];
      [|reflexivity].
    apply D in Heq. destruct Heq as [-> ->]. congruence.
Qed.

Lemma read_atom_by_signature_witness :
  PhoenixZPA.read_atom engine_1mb (2 ^ 57) = Raise OverflowError
  /\ PhoenixZPA.read_atom engine_1mb (-3) = Raise ValueError.
Proof.
  split.
  - apply (read_atom_by_signature engine_1mb (2 ^ 57)). right.
    unfold ATOM_SIZE. lia.
  - apply (read_atom_by_signature engine_1mb (-3)).
    + unfold ATOM_SIZE. lia.
    + left. lia.
Defined.

(** ** Sequences of calls *)

(** X9. After any sequence of [write_atom] calls on an engine that satisfies
    its invariant, a slot that some call wrote with success reads as the
    record of the last such call, whatever calls to other slots, rejected
    calls and failed calls came in between: [read_atom] returns the record
    of the slot, its integer fields are those the last call set, and its
    [payload] is the payload of the last call cut to 32 bytes and stopped
    before its first zero byte. A slot that no call wrote holds what it
    held before. The 32 bytes of the payload field are what the successful
    writes to the slot left one after the other, each copying its payload
    up to the first zero byte, with one zero byte after it when that is
    less than 32 bytes, over the beginning of the field. The size, the
    capacity and the length of the region are those of the start. *)
Theorem replay_keeps_last_write
        (self : PhoenixZPA.t) (cs : list call) (i : Z)
        (Hwf : wf self) (Hi : 0 <= i) :
  match last_write self i cs None with
  | Some c =>
      PhoenixZPA.read_atom (replay self cs) i = Return (Some (i * ATOM_SIZE))
      /\ holds_record (PhoenixZPA.map (replay self cs)) i c
  | None => load (PhoenixZPA.map (replay self cs)) (i * ATOM_SIZE) 64
            = load (PhoenixZPA.map self) (i * ATOM_SIZE) 64
  end
  /\ raw_field (PhoenixZPA.map (replay self cs)) (i * ATOM_SIZE) payload
     = payload_trace self i cs
                     (raw_field (PhoenixZPA.map self) (i * ATOM_SIZE) payload)
  /\ PhoenixZPA.size_bytes (replay self cs) = PhoenixZPA.size_bytes self
  /\ PhoenixZPA.atom_capacity (replay self cs) = PhoenixZPA.atom_capacity self
  /\ length (PhoenixZPA.map (replay self cs)) = length (PhoenixZPA.map self).
Proof.
  split; [|split; [now apply replay_payload_trace | now apply replay_fields]].
  pose proof (replay_last_write cs self i None Hwf Hi) as H.
  destruct (last_write self i cs None) as [c|]; [|apply H; discriminate].
  destruct H as [Hc Hh]; [discriminate|].
  split; [|exact Hh].
  destruct (replay_invariant cs self Hwf) as [Wr Cr].
  assert (Hin : 0 <= i < PhoenixZPA.atom_capacity (replay self cs))
    by (rewrite Cr; lia).
  pose proof (slot_in_region _ i Wr Hin) as Hslot.
  pose proof (region_fits _ Wr) as Hfit.
  rewrite read_atom_in_range by (unfold ATOM_SIZE in *; lia).
  destruct Hh as [Hm _]. rewrite Hm. reflexivity.
Qed.

Lemma replay_keeps_last_write_witness :
  PhoenixZPA.read_atom
    (replay engine_1mb
            [mk_call 1 2 dummy_data 1; mk_call 2 3 dummy_data 1;
             mk_call 3 2 [x00; x00; x00] 1; mk_call 4 2 [x42] 7;
             mk_call 5 (-1) [x43] 1]) 2
  = Return (Some (2 * ATOM_SIZE))
  /\ holds_record
       (PhoenixZPA.map
          (replay engine_1mb
                  [mk_call 1 2 dummy_data 1; mk_call 2 3 dummy_data 1;
                   mk_call 3 2 [x00; x00; x00] 1; mk_call 4 2 [x42] 7;
                   mk_call 5 (-1) [x43] 1]))
       2 (mk_call 4 2 [x42] 7)
  /\ raw_field
       (PhoenixZPA.map
          (replay engine_1mb
                  [mk_call 1 2 dummy_data 1; mk_call 2 3 dummy_data 1;
                   mk_call 3 2 [x00; x00; x00] 1; mk_call 4 2 [x42] 7;
                   mk_call 5 (-1) [x43] 1]))
       (2 * ATOM_SIZE) payload
     = [x42; x00] ++ list_byte_of_string "chen Universe Semantic Payload".
Proof.
  pose proof (replay_keeps_last_write engine_1mb
                [mk_call 1 2 dummy_data 1; mk_call 2 3 dummy_data 1;
                 mk_call 3 2 [x00; x00; x00] 1; mk_call 4 2 [x42] 7;
                 mk_call 5 (-1) [x43] 1] 2 engine_1mb_wf ltac:(lia))
    as (H & P & _).
  assert (E : last_write engine_1mb 2
                [mk_call 1 2 dummy_data 1; mk_call 2 3 dummy_data 1;
                 mk_call 3 2 [x00; x00; x00] 1; mk_call 4 2 [x42] 7;
                 mk_call 5 (-1) [x43] 1] None
              = Some (mk_call 4 2 [x42] 7)) by (vm_compute; reflexivity).
  assert (T : payload_trace engine_1mb 2
                [mk_call 1 2 dummy_data 1; mk_call 2 3 dummy_data 1;
                 mk_call 3 2 [x00; x00; x00] 1; mk_call 4 2 [x42] 7;
                 mk_call 5 (-1) [x43] 1]
                (raw_field (PhoenixZPA.map engine_1mb) (2 * ATOM_SIZE) payload)
              = [x42; x00]
                  ++ list_byte_of_string "chen Universe Semantic Payload")
    by (vm_compute; reflexivity).
  rewrite E in H. rewrite T in P. destruct H as [R Hh].
  exact (conj R (conj Hh P)).
Defined.

(** X10. Two writes that are admitted, to two different valid slots,
    commute: made in either order, they leave the same engine. *)
Theorem writes_to_different_slots_commute
        (self : PhoenixZPA.t) (now1 now2 i j : Z) (p1 p2 : list byte) (s1 s2 : Z)
        (Hwf : wf self)
        (Hi : 0 <= i < PhoenixZPA.atom_capacity self)
        (Hj : 0 <= j < PhoenixZPA.atom_capacity self)
        (Hij : i <> j)
        (H1 : admissible p1) (H2 : admissible p2) :
  snd (PhoenixZPA.write_atom
         (snd (PhoenixZPA.write_atom self now1 i p1 s1)) now2 j p2 s2)
  = snd (PhoenixZPA.write_atom
           (snd (PhoenixZPA.write_atom self now2 j p2 s2)) now1 i p1 s1).
Proof.
  pose proof (admitted_wf self now1 i p1 s1 Hwf Hi) as W1.
  pose proof (admitted_wf self now2 j p2 s2 Hwf Hj) as W2.
  rewrite (admitted_write self now1 i p1 s1 Hwf Hi H1).
  rewrite (admitted_write self now2 j p2 s2 Hwf Hj H2).
  cbn [snd].
  rewrite (admitted_write _ now2 j p2 s2 W1 Hj H2).
  rewrite (admitted_write _ now1 i p1 s1 W2 Hi H1).
  cbn [snd]. unfold with_map.
  cbn [PhoenixZPA.size_bytes PhoenixZPA.atom_capacity PhoenixZPA.map].
  f_equal.
  pose proof (slot_in_region self i Hwf Hi) as Si.
  pose proof (slot_in_region self j Hwf Hj) as Sj.
  pose proof (old_payload_length self i Hwf Hi) as Oi.
  pose proof (old_payload_length self j Hwf Hj) as Oj.
  assert (Bi : 0 <= i * ATOM_SIZE) by (unfold ATOM_SIZE; lia).
  assert (Bj : 0 <= j * ATOM_SIZE) by (unfold ATOM_SIZE; lia).
  unfold region_after at 1 3. cbn [with_map PhoenixZPA.map].
  rewrite (raw_field_of_slot (region_after self now1 i p1 s1)) by assumption.
  rewrite (raw_field_of_slot (region_after self now2 j p2 s2)) by assumption.
  rewrite (region_after_other_slot self now1 i p1 s1 j) by (assumption || lia).
  rewrite (region_after_other_slot self now2 j p2 s2 i) by (assumption || lia).
  rewrite <- !raw_field_of_slot by assumption.
  unfold region_after.
  apply store_store_comm; rewrite ?atom_image_length by assumption;
    unfold ATOM_SIZE in *; lia.
Qed.

Lemma writes_to_different_slots_commute_witness :
  snd (PhoenixZPA.write_atom
         (snd (PhoenixZPA.write_atom engine_1mb 1 4 dummy_data 1)) 2 9 [x41] 2)
  = snd (PhoenixZPA.write_atom
           (snd (PhoenixZPA.write_atom engine_1mb 2 9 [x41] 2)) 1 4 dummy_data 1).
Proof.
  apply (writes_to_different_slots_commute engine_1mb 1 2 4 9 dummy_data [x41] 1 2).
  - exact engine_1mb_wf.
  - rewrite engine_1mb_capacity. lia.
  - rewrite engine_1mb_capacity. lia.
  - lia.
  - exact admissible_dummy.
  - exact admissible_A.
Defined.

(** ** The layout *)

(** X11. The packed structure is as large as a slot: [FC496Struct] has 64
    bytes, [ATOM_SIZE]. Its fields start at 0, 2, 10, 18, 20, 22, 24 and
    56; each lies inside the 64 bytes, and two different fields share no
    byte. *)
Theorem layout_fills_the_slot :
  struct_size = ATOM_SIZE
  /\ map field_offset
         [magic; pi_index; geo_hash; schema; h_score; flags; payload; strands]
     = [0; 2; 10; 18; 20; 22; 24; 56]
  /\ (forall f : field,
        0 <= field_offset f
        /\ field_offset f + Z.of_nat (field_size f) <= struct_size)
  /\ (forall f g : field,
        f <> g ->
        field_offset f + Z.of_nat (field_size f) <= field_offset g
        \/ field_offset g + Z.of_nat (field_size g) <= field_offset f).
Proof.
  split; [reflexivity|]. split; [reflexivity|]. split.
  - intros f. pose proof (offset_in_bound _fields_ f (fields_complete f)) as H.
    unfold field_offset, field_size, struct_size. fold (total_size _fields_). lia.
  - intros f g Hne.
    destruct (offset_in_disjoint _fields_ f g fields_NoDup (fields_complete f)
                (fields_complete g) Hne) as [H|H];
      unfold field_offset, field_size; [left|right]; lia.
Qed.

(** ** Opening a file again *)

(** X12. What an engine wrote is there when the file is opened again. Let
    an engine be built with a positive [size_mb] and used for any sequence
    of calls; building an engine with the same [size_mb] over a file that
    holds the bytes of its region gives the same engine back, so every
    slot reads as it did. *)
Theorem reopen_gives_the_same_engine
        (existing : option (list byte)) (size_mb : Z) (e0 : PhoenixZPA.t)
        (cs : list call)
        (Hinit : PhoenixZPA.__init__ existing size_mb = Return e0)
        (Hpos : 0 < size_mb) :
  PhoenixZPA.__init__ (Some (PhoenixZPA.map (replay e0 cs))) size_mb
  = Return (replay e0 cs).
Proof.
  pose proof (init_wf _ _ _ Hinit) as Hwf.
  destruct (init_fields _ _ _ Hinit) as (Hs & Hc & _ & Hm & Hl).
  destruct (replay_fields cs e0 Hwf) as (Rs & Rc & Rl).
  specialize (Hl Hpos).
  destruct (replay e0 cs) as [sz cap m].
  cbn [PhoenixZPA.size_bytes PhoenixZPA.atom_capacity PhoenixZPA.map] in *.
  unfold PhoenixZPA.__init__, PhoenixZPA._init_storage.
  cbn [andb].
  set (n := size_mb * 1024 * 1024) in *.
  assert (Hn : 0 < n) by (unfold n; lia).
  rewrite (proj2 (Z.ltb_ge PY_SSIZE_T_MAX n)) by lia.
  rewrite (proj2 (Z.ltb_ge n 0)) by lia.
  rewrite (proj2 (Z.eqb_neq n 0)) by lia.
  rewrite (proj2 (Z.ltb_ge (Z.of_nat (length m)) n)) by lia.
  rewrite firstn_all2 by lia.
  congruence.
Qed.

Lemma reopen_gives_the_same_engine_witness :
  PhoenixZPA.__init__
    (Some (PhoenixZPA.map (replay engine_1mb [mk_call 1 2 [x41] 1]))) 1
  = Return (replay engine_1mb [mk_call 1 2 [x41] 1]).
Proof.
  apply (reopen_gives_the_same_engine None 1 engine_1mb [mk_call 1 2 [x41] 1]).
  - exact init_1mb.
  - lia.
Defined.

(** ** The benchmark *)

(** X13. The write loop of [run_benchmark]. On an engine built with
    [size_mb] megabytes, over a new file or an old one, the loop over
    [n_ops] indices with [n_ops] at most the capacity [size_mb * 16384]
    ends without an exception; afterwards [read_atom] at every index below
    [n_ops] returns a record, never [None], whose [payload] is
    ["Lichen Universe Semantic Payload"], and every slot from [n_ops] on is
    as it was. The benchmark has [size_mb = 100] and [n_ops = 100000]. *)
Theorem benchmark_write_loop
        (existing : option (list byte)) (size_mb : Z) (zpa : PhoenixZPA.t)
        (clock : nat -> Z) (n_ops : nat)
        (Hinit : PhoenixZPA.__init__ existing size_mb = Return zpa)
        (Hn : Z.of_nat n_ops <= size_mb * 16384) :
  100000 <= 100 * 16384
  /\ exists zpa',
      write_loop clock zpa (seq 0 n_ops) = (Return tt, zpa')
      /\ (forall i : nat, (i < n_ops)%nat ->
            PhoenixZPA.read_atom zpa' (Z.of_nat i)
            = Return (Some (Z.of_nat i * ATOM_SIZE))
            /\ get_chars (PhoenixZPA.map zpa') (Z.of_nat i * ATOM_SIZE) payload
               = list_byte_of_string "Lichen Universe Semantic Payload")
      /\ (forall j : Z, Z.of_nat n_ops <= j ->
            load (PhoenixZPA.map zpa') (j * ATOM_SIZE) 64
            = load (PhoenixZPA.map zpa) (j * ATOM_SIZE) 64).
Proof.
  split; [lia|].
  pose proof (init_wf _ _ _ Hinit) as Hwf.
  destruct (init_fields _ _ _ Hinit) as (_ & Hc & _ & _ & _).
  assert (Hcap : PhoenixZPA.atom_capacity zpa = size_mb * 16384).
  { rewrite Hc. unfold ATOM_SIZE.
    replace (size_mb * 1024 * 1024) with (size_mb * 16384 * 64) by lia.
    apply Z.div_mul. lia. }
  destruct (write_loop_run clock zpa n_ops Hwf ltac:(lia))
    as (zpa' & E & W & C & L & S & O).
  exists zpa'. split; [exact E|]. split; [|exact O].
  intros i Hi. specialize (S i Hi).
  assert (Hin : 0 <= Z.of_nat i < PhoenixZPA.atom_capacity zpa') by lia.
  pose proof (slot_in_region zpa' (Z.of_nat i) W Hin) as Hslot.
  pose proof (region_fits zpa' W) as Hfit.
  split.
  - rewrite read_atom_in_range by (unfold ATOM_SIZE in *; lia).
    rewrite magic_of_slot, S. reflexivity.
  - unfold get_chars. change (field_offset payload) with 24.
    change (field_size payload) with 32%nat.
    rewrite (load_within _ _ 24 32 64) by (unfold ATOM_SIZE; simpl; lia).
    rewrite S. change (Z.to_nat 24) with 24%nat.
    rewrite image_payload by apply repeat_length. vm_compute. reflexivity.
Qed.

Lemma benchmark_write_loop_witness :
  exists zpa',
    write_loop (fun i => Z.of_nat i) engine_1mb (seq 0 100)
    = (Return tt, zpa')
    /\ (forall i : nat, (i < 100)%nat ->
          PhoenixZPA.read_atom zpa' (Z.of_nat i)
          = Return (Some (Z.of_nat i * ATOM_SIZE))
          /\ get_chars (PhoenixZPA.map zpa') (Z.of_nat i * ATOM_SIZE) payload
             = list_byte_of_string "Lichen Universe Semantic Payload")
    /\ (forall j : Z, Z.of_nat 100 <= j ->
          load (PhoenixZPA.map zpa') (j * ATOM_SIZE) 64
          = load (PhoenixZPA.map engine_1mb) (j * ATOM_SIZE) 64).
Proof.
  apply (benchmark_write_loop None 1 engine_1mb (fun i => Z.of_nat i) 100).
  - exact init_1mb.
  - lia.
Defined.
